(** * dnd-project: the project store, its listeners, the validation gate
      and the drag-over handler of [src/app.ts], embedded in Rocq.

    The TypeScript source is one file.  Its objects live on a heap and are
    passed around by reference ([Project] instances, the [projects] and
    [listeners] arrays of a [ProjectState]), so the embedding keeps an
    explicit heap with locations, and an operation of the store is a
    function from heaps to heaps that also returns the listener calls it
    made.  Numbers are ECMAScript numbers seen through their decimal form,
    because [validate] prints and compares them.

    What a listener does when it is called is a list of mutations of the
    array it is handed and of the projects that array refers to; a listener
    that calls back into the store, or that throws, is outside the model
    (the source has no such listener). *)

From Stdlib Require Import ZArith NArith Ascii String Decimal DecimalString DecimalPos.
From stdpp Require Import gmap strings list.

Local Open Scope Z_scope.

(** ** ECMAScript numbers, as far as the source uses them

    The source only compares numbers ([>=], [<=]) and prints them
    ([toString]); it never does arithmetic on them.  A finite number is kept
    as a signed decimal [(-1)^neg * m * 10^e]: every double has such a form
    (the shortest one that reads back is the one [toString] prints), and the
    order of doubles is the order of these decimals.  [m = 0] gives the two
    zeros. *)

Inductive number : Type :=
  | NaN
  | Inf (neg : bool)
  | Fin (neg : bool) (m : N) (e : Z).

Definition of_Z (z : Z) : number := Fin (z <? 0) (Z.to_N (Z.abs z)) 0.
Definition of_nat (n : nat) : number := Fin false (N.of_nat n) 0.

(** The value of a finite number scaled by [10^(-e0)], for [e0 <= e]. *)
Definition scaled (neg : bool) (m : N) (e e0 : Z) : Z :=
  (if neg then -1 else 1) * Z.of_N m * 10 ^ (e - e0).

(** [x < y], [x = y], [x > y], or unordered when a NaN is involved. *)
Definition number_compare (x y : number) : option comparison :=
  match x, y with
  | NaN, _ | _, NaN => None
  | Inf true, Inf true | Inf false, Inf false => Some Eq
  | Inf true, _ => Some Lt
  | Inf false, _ => Some Gt
  | _, Inf true => Some Gt
  | _, Inf false => Some Lt
  | Fin sx mx ex, Fin sy my ey =>
      let e0 := Z.min ex ey in
      Some (Z.compare (scaled sx mx ex e0) (scaled sy my ey e0))
  end.

(** [x >= y] and [x <= y] of the language: false as soon as one side is NaN. *)
Definition number_ge (x y : number) : bool :=
  match number_compare x y with
  | Some Gt | Some Eq => true
  | _ => false
  end.

Definition number_le (x y : number) : bool :=
  match number_compare x y with
  | Some Lt | Some Eq => true
  | _ => false
  end.

(** [Number::toString] in radix 10.  [strip0] removes the low-order zero
    digits of a little-endian digit string and counts them, which yields the
    digits [s] of the specification ([k] of them, [k] as small as possible)
    and the exponent [n] with value [s * 10^(n-k)]. *)
Fixpoint strip0 (d : Decimal.uint) : Decimal.uint * nat :=
  match d with
  | Decimal.D0 d' => let '(r, z) := strip0 d' in (r, S z)
  | _ => (d, 0%nat)
  end.

Fixpoint zeros (n : nat) : string :=
  match n with
  | O => EmptyString
  | S n' => String "0" (zeros n')
  end.

Definition decimal_of_N (n : N) : string :=
  NilZero.string_of_uint (N.to_uint n).

Definition to_string_pos (p : positive) (e : Z) : string :=
  let '(lds, z) := strip0 (Pos.to_little_uint p) in
  let ds := NilEmpty.string_of_uint (Decimal.rev lds) in
  let k := String.length ds in
  let n := e + Z.of_nat z + Z.of_nat k in
  if (-5 <=? n) && (n <=? 21) then
    if Z.of_nat k <=? n then
      ds +:+ zeros (Z.to_nat n - k)
    else if 0 <? n then
      substring 0 (Z.to_nat n) ds +:+ "." +:+ substring (Z.to_nat n) (k - Z.to_nat n) ds
    else
      "0." +:+ zeros (Z.to_nat (- n)) +:+ ds
  else
    let ex := (if n <? 0 then "-" else "+") +:+ decimal_of_N (Z.to_N (Z.abs (n - 1))) in
    if (k =? 1)%nat then
      ds +:+ "e" +:+ ex
    else
      substring 0 1 ds +:+ "." +:+ substring 1 (k - 1) ds +:+ "e" +:+ ex.

Definition to_string (x : number) : string :=
  match x with
  | NaN => "NaN"
  | Inf false => "Infinity"
  | Inf true => "-Infinity"
  | Fin _ N0 _ => "0"
  | Fin neg (Npos p) e => (if neg then "-" else EmptyString) +:+ to_string_pos p e
  end.

(** ** Strings

    A string is a sequence of 8-bit code units.  [String.prototype.trim]
    removes white space and line terminators at both ends; among the code
    units below 256 these are TAB, LF, VT, FF, CR, SPACE and NBSP. *)

Definition is_white_space (c : ascii) : bool :=
  let n := nat_of_ascii c in
  ((9 <=? n) && (n <=? 13) || (n =? 32) || (n =? 160))%nat.

Fixpoint trim_start (s : string) : string :=
  match s with
  | EmptyString => EmptyString
  | String c s' => if is_white_space c then trim_start s' else s
  end.

Fixpoint trim_end (s : string) : string :=
  match s with
  | EmptyString => EmptyString
  | String c s' =>
      match trim_end s' with
      | EmptyString => if is_white_space c then EmptyString else String c EmptyString
      | t => String c t
      end
  end.

Definition trim (s : string) : string := trim_end (trim_start s).

(** No character of the string is white space. *)
Fixpoint no_white_space (s : string) : bool :=
  match s with
  | EmptyString => true
  | String c s' => negb (is_white_space c) && no_white_space s'
  end.

(** ** The validation gate ([validate], app.ts 83-114) *)

Inductive string_or_number : Type :=
  | VString (s : string)
  | VNumber (x : number).

(** [interface Validatable]: the optional members are [None] when absent. *)
Record Validatable : Type := mkValidatable {
  value : string_or_number;
  required : option bool;
  minLength : option number;
  maxLength : option number;
  min : option number;
  max : option number
}.

(** [value.toString()] *)
Definition value_to_string (v : string_or_number) : string :=
  match v with
  | VString s => s
  | VNumber x => to_string x
  end.

(** [if (validatableInput.required)]: an absent member is falsy. *)
Definition truthy (b : option bool) : bool :=
  match b with
  | Some true => true
  | _ => false
  end.

Definition validate (validatableInput : Validatable) : bool :=
  let isValid := true in
  let isValid :=
    if truthy (required validatableInput) then
      isValid &&
      negb (String.length (trim (value_to_string (value validatableInput))) =? 0)%nat
    else isValid in
  let isValid :=
    match minLength validatableInput, value validatableInput with
    | Some ml, VString s => isValid && number_ge (of_nat (String.length s)) ml
    | _, _ => isValid
    end in
  let isValid :=
    match maxLength validatableInput, value validatableInput with
    | Some ml, VString s => isValid && number_le (of_nat (String.length s)) ml
    | _, _ => isValid
    end in
  let isValid :=
    match min validatableInput, value validatableInput with
    | Some lo, VNumber x => isValid && number_ge x lo
    | _, _ => isValid
    end in
  let isValid :=
    match max validatableInput, value validatableInput with
    | Some hi, VNumber x => isValid && number_le x hi
    | _, _ => isValid
    end in
  isValid.

Local Close Scope Z_scope.

(** ** Projects and the heap

    [Project] instances, the [Project[]] and [Listener[]] arrays and the
    [ProjectState] objects are reference values: the heap maps a location to
    each of them.  All locations come from one counter, [next]. *)

Abbreviation loc := nat.

Inductive ProjectStatus : Type := Active | Finished.

#[global] Instance ProjectStatus_eq_dec : EqDecision ProjectStatus.
Proof. solve_decision. Defined.

Record Project : Type := mkProject {
  id : string;
  title : string;
  description : string;
  people : number;
  status : ProjectStatus
}.

(** What a listener may do with the array it is handed.  The members of
    [Project] are all public and writable, so a listener can assign to any of
    them through an element of the array. *)
Inductive field_write : Type :=
  | SetId (s : string)
  | SetTitle (s : string)
  | SetDescription (s : string)
  | SetPeople (x : number)
  | SetStatus (s : ProjectStatus).

Definition assign (w : field_write) (p : Project) : Project :=
  match w with
  | SetId s => mkProject s (title p) (description p) (people p) (status p)
  | SetTitle s => mkProject (id p) s (description p) (people p) (status p)
  | SetDescription s => mkProject (id p) (title p) s (people p) (status p)
  | SetPeople x => mkProject (id p) (title p) (description p) x (status p)
  | SetStatus s => mkProject (id p) (title p) (description p) (people p) s
  end.

Inductive mutation : Type :=
  (** any in-place edit of the received array: [push] of a held reference,
      [pop], [splice], [sort], [reverse], [items.length = 0], [items[i] = x] *)
  | ArrayEdit (g : list loc → list loc)
  (** [items.push(new Project(...))] *)
  | ArrayPushNew (p : Project)
  (** [const e = items[i]; if (e) e.member = v] *)
  | ElemWrite (i : nat) (w : field_write).

(** A listener is a function object: [fn_id] is its identity, [fn_body] what
    it does with the projects it reads from the array it receives.  Listeners
    that call back into the store or that throw are not modelled. *)
Record Listener : Type := mkListener {
  fn_id : nat;
  fn_body : list Project → list mutation
}.

(** An instance of [class ProjectState extends State<Project>]: its two
    array members. *)
Record ProjectState : Type := mkProjectState {
  listeners : loc;
  projects : loc
}.

Record heap : Type := mkHeap {
  objects : gmap loc Project;
  arrays : gmap loc (list loc);
  fn_arrays : gmap loc (list Listener);
  stores : gmap loc ProjectState;
  (** the static member [ProjectState.instance] *)
  instance : option loc;
  next : loc
}.

Definition empty_heap : heap := mkHeap ∅ ∅ ∅ ∅ None 0%nat.

Definition set_objects (f : gmap loc Project → gmap loc Project) (h : heap) : heap :=
  mkHeap (f (objects h)) (arrays h) (fn_arrays h) (stores h) (instance h) (next h).
Definition set_arrays (f : gmap loc (list loc) → gmap loc (list loc)) (h : heap) : heap :=
  mkHeap (objects h) (f (arrays h)) (fn_arrays h) (stores h) (instance h) (next h).
Definition set_fn_arrays (f : gmap loc (list Listener) → gmap loc (list Listener))
    (h : heap) : heap :=
  mkHeap (objects h) (arrays h) (f (fn_arrays h)) (stores h) (instance h) (next h).
Definition set_stores (f : gmap loc ProjectState → gmap loc ProjectState)
    (h : heap) : heap :=
  mkHeap (objects h) (arrays h) (fn_arrays h) (f (stores h)) (instance h) (next h).
Definition bump (k : nat) (h : heap) : heap :=
  mkHeap (objects h) (arrays h) (fn_arrays h) (stores h) (instance h) (k + next h)%nat.

(** ** Listener calls *)

(** The projects an array refers to, as a listener reads them. *)
Definition view (h : heap) (items : list loc) : list Project :=
  omap (λ r, objects h !! r) items.

Definition apply_mutation (a : loc) (m : mutation) (h : heap) : heap :=
  match m with
  | ArrayEdit g => set_arrays (alter g a) h
  | ArrayPushNew p =>
      let r := next h in
      bump 1 (set_arrays (alter (λ l, l ++ [r]) a) (set_objects <[r := p]> h))
  | ElemWrite i w =>
      match arrays h !! a with
      | Some l =>
          match l !! i with
          | Some r => set_objects (alter (assign w) r) h
          | None => h
          end
      | None => h
      end
  end.

(** [listenerFn(a)]: the body reads the array, then performs its mutations
    one after the other. *)
Definition call (f : Listener) (a : loc) (h : heap) : heap :=
  foldl (λ h' m, apply_mutation a m h') h
        (fn_body f (view h (default [] (arrays h !! a)))).

(** One record per listener invocation: which function, the array it was
    handed and what that array held. *)
Inductive event : Type :=
  | Notified (f : nat) (snapshot : loc) (items : list loc).

Definition event_fn (ev : event) : nat := let 'Notified f _ _ := ev in f.
Definition event_snapshot (ev : event) : loc := let 'Notified _ a _ := ev in a.
Definition event_items (ev : event) : list loc := let 'Notified _ _ l := ev in l.

(** ** The store ([State], [ProjectState], app.ts 28-77) *)

(** [new ProjectState()]: the object, then [listeners = []] of the base
    class, then [projects = []]. *)
Definition new_ProjectState (h : heap) : loc * heap :=
  let this := next h in
  let ls := S this in
  let ps := S ls in
  (this,
   bump 3 (set_stores <[this := mkProjectState ls ps]>
            (set_arrays <[ps := []]> (set_fn_arrays <[ls := []]> h)))).

(** [static getInstance()]: nothing in the class assigns [instance]. *)
Definition getInstance (h : heap) : loc * heap :=
  match instance h with
  | Some this => (this, h)
  | None => new_ProjectState h
  end.

(** [addListener(listenerFn)]: [this.listeners.push(listenerFn)] *)
Definition addListener (this : loc) (listenerFn : Listener) (h : heap) : option heap :=
  so ← stores h !! this;
  ls ← fn_arrays h !! listeners so;
  Some (set_fn_arrays <[listeners so := ls ++ [listenerFn]]> h).

(** The loop of [updateListeners] over the listeners still to be called:
    each is handed [this.projects.slice()], a new array with the current
    contents of [this.projects]. *)
Fixpoint notify (ps : loc) (ls : list Listener) (h : heap) : option (heap * list event) :=
  match ls with
  | [] => Some (h, [])
  | listenerFn :: ls' =>
      items ← arrays h !! ps;
      let a := next h in
      let h1 := bump 1 (set_arrays <[a := items]> h) in
      '(h2, tr) ← notify ps ls' (call listenerFn a h1);
      Some (h2, Notified (fn_id listenerFn) a items :: tr)
  end.

Definition updateListeners (this : loc) (h : heap) : option (heap * list event) :=
  so ← stores h !! this;
  ls ← fn_arrays h !! listeners so;
  notify (projects so) ls h.

(** [addProject(title, description, numOfPeople)]; [rnd] is the value
    [Math.random()] returns in this call. *)
Definition addProject (this : loc) (rnd : number) (title description : string)
    (numOfPeople : number) (h : heap) : option (heap * list event) :=
  so ← stores h !! this;
  items ← arrays h !! projects so;
  let newProject := mkProject (to_string rnd) title description numOfPeople Active in
  let r := next h in
  let h1 := bump 1 (set_arrays <[projects so := items ++ [r]]>
                      (set_objects <[r := newProject]> h)) in
  updateListeners this h1.

(** [this.projects.find(prj => prj.id === projectId)] *)
Definition find_project (h : heap) (items : list loc) (projectId : string) : option loc :=
  List.find (λ r, match objects h !! r with
                  | Some prj => bool_decide (id prj = projectId)
                  | None => false
                  end) items.

(** The body of [moveProject] before the notification: assign the status
    of the project found, when it differs. *)
Definition moveProject_assign (h : heap) (items : list loc) (projectId : string)
    (newStatus : ProjectStatus) : heap :=
  match find_project h items projectId with
  | Some r =>
      match objects h !! r with
      | Some project =>
          if bool_decide (status project ≠ newStatus)
          then set_objects <[r := assign (SetStatus newStatus) project]> h
          else h
      | None => h
      end
  | None => h
  end.

Definition moveProject (this : loc) (projectId : string) (newStatus : ProjectStatus)
    (h : heap) : option (heap * list event) :=
  so ← stores h !! this;
  items ← arrays h !! projects so;
  updateListeners this (moveProject_assign h items projectId newStatus).

(** Reading a store: its sequence of references, the projects behind them
    and its listeners. *)
Definition store_items (h : heap) (this : loc) : option (list loc) :=
  so ← stores h !! this; arrays h !! projects so.

Definition store_projects (h : heap) (this : loc) : option (list Project) :=
  items ← store_items h this; mapM (λ r, objects h !! r) items.

Definition store_listeners (h : heap) (this : loc) : option (list Listener) :=
  so ← stores h !! this; fn_arrays h !! listeners so.

(** ** Well-formed heaps

    Every allocated location is below [next]; a store has its two arrays,
    and the references in its [projects] array point to [Project]s. *)

Definition heap_ok (h : heap) : Prop :=
  map_Forall (λ r _, r < next h) (objects h) ∧
  map_Forall (λ a _, a < next h) (arrays h) ∧
  map_Forall (λ a _, a < next h) (fn_arrays h) ∧
  map_Forall (λ s _, s < next h) (stores h).

Definition store_ok (h : heap) (this : loc) : Prop :=
  ∃ so items ls,
    stores h !! this = Some so ∧
    arrays h !! projects so = Some items ∧
    fn_arrays h !! listeners so = Some ls ∧
    Forall (λ r, is_Some (objects h !! r)) items.

Definition is_elem_write (m : mutation) : bool :=
  match m with
  | ElemWrite _ _ => true
  | _ => false
  end.

(** A listener that assigns to no member of a [Project] (it may still edit
    the array it was handed in any way). *)
Definition no_field_writes (f : Listener) : Prop :=
  ∀ ps, Forall (λ m, is_elem_write m = false) (fn_body f ps).

(** [frame n h h']: from [h] to [h'] the stores, the listener arrays and the
    static slot are the same, nothing was freed, and the arrays below [n]
    hold what they held.  [quiet n h h']: the objects below [n] are the
    same. *)
Definition frame (n : nat) (h h' : heap) : Prop :=
  stores h' = stores h ∧ fn_arrays h' = fn_arrays h ∧ instance h' = instance h ∧
  next h ≤ next h' ∧
  (∀ a, a < n → arrays h' !! a = arrays h !! a) ∧
  (∀ r, is_Some (objects h !! r) → is_Some (objects h' !! r)).

Definition quiet (n : nat) (h h' : heap) : Prop :=
  ∀ r, r < n → objects h' !! r = objects h !! r.



(** One call of an operation of the store, by anyone, on any store. *)
Inductive step : heap → heap → Prop :=
  | step_getInstance h :
      step h (getInstance h).2
  | step_addListener h this f h' :
      addListener this f h = Some h' → step h h'
  | step_addProject h this rnd t d n h' tr :
      addProject this rnd t d n h = Some (h', tr) → step h h'
  | step_moveProject h this pid s h' tr :
      moveProject this pid s h = Some (h', tr) → step h h'.

(** The heaps a program can be in: those that runs of the operations reach
    from the empty heap; and the invariant they satisfy. *)
Definition reachable (h : heap) : Prop := rtc step empty_heap h.

Definition stores_ok (h : heap) : Prop :=
  ∀ s, is_Some (stores h !! s) → store_ok h s.

(** ** Concrete listeners and heaps

    [column_listener k] is the listener a [ProjectList] registers in
    [configure]: it filters the projects into a member of its own and renders
    them, and writes neither the array nor a project.  [meddler] is
    [items => { const e = items[0]; if (e) e.status = ProjectStatus.Finished }]. *)

Definition column_listener (k : nat) : Listener := mkListener k (λ _, []).

Definition meddler : Listener :=
  mkListener 9 (λ _, [ElemWrite 0 (SetStatus Finished)]).

Definition build_api : Project :=
  mkProject "0.25" "Build API" "Implement REST endpoints" (of_Z 3) Active.

(** After [ProjectState.getInstance()] and the two columns' [addListener]. *)
Definition started : heap :=
  mkHeap ∅ {[2 := []]} {[1 := [column_listener 0; column_listener 1]]}
         {[0 := mkProjectState 1 2]} None 3.

(** After the submission of "Build API" on [started], with [Math.random()]
    returning 0.25. *)
Definition board : heap :=
  mkHeap {[3 := build_api]} (<[5 := [3]]> (<[4 := [3]]> {[2 := [3]]}))
         {[1 := [column_listener 0; column_listener 1]]}
         {[0 := mkProjectState 1 2]} None 6.

(** A store holding "Build API" on which [meddler] is the one listener. *)
Definition meddled : heap :=
  mkHeap {[3 := build_api]} {[2 := [3]]} {[1 := [meddler]]}
         {[0 := mkProjectState 1 2]} None 4.


(** ** The drag-over handler of a column ([ProjectList.dragOverHandler],
       app.ts 230-237)

    Of the event the handler reads [dataTransfer.types] and calls
    [preventDefault]; of the column it touches the class list of the [ul]. *)

Record DataTransfer : Type := mkDataTransfer {
  types : list string
}.

Record DragEvent : Type := mkDragEvent {
  dataTransfer : option DataTransfer;
  defaultPrevented : bool
}.

(** [event.preventDefault()]; a [dragover] event is cancelable. *)
Definition preventDefault (event : DragEvent) : DragEvent :=
  mkDragEvent (dataTransfer event) true.

(** [classList.add(token)]: a class list holds a token once. *)
Definition classList_add (token : string) (cl : list string) : list string :=
  if bool_decide (token ∈ cl) then cl else cl ++ [token].

(** [event.dataTransfer && event.dataTransfer.types[0] == 'text/plain'] *)
Definition offers_plain_text (event : DragEvent) : bool :=
  match dataTransfer event with
  | Some dt => bool_decide (types dt !! 0%nat = Some "text/plain")
  | None => false
  end.

Definition dragOverHandler (event : DragEvent) (ul : list string) : DragEvent * list string :=
  if offers_plain_text event
  then (preventDefault event, classList_add "droppable" ul)
  else (event, ul).

(** * The rest of the source *)

(** ** [===] on numbers, and the [persons] getter of a card
       ([ProjectItem.persons], app.ts 169-175) *)

(** [x === y] on numbers: equal values; a NaN is equal to nothing, the two
    zeros are equal. *)
Definition number_eq (x y : number) : bool :=
  match number_compare x y with
  | Some Eq => true
  | _ => false
  end.

Definition persons (project : Project) : string :=
  if number_eq (people project) (of_Z 1) then "1 person"
  else to_string (people project) +:+ " persons".

(** ** The drag data store

    [event.dataTransfer] of a drag gesture carries a list of (format, data)
    items and the allowed effect.  [setData] replaces the item of the given
    format, if any, by a new item at the end of the list; [getData] returns
    the data of the item of that format, or the empty string; [types] lists
    the formats in order.  The format is taken in its canonical lower-case
    form, as the source writes it (['text/plain']). *)

Record DataStore : Type := mkDataStore {
  entries : list (string * string);
  effectAllowed : string
}.

Definition setData (format data : string) (d : DataStore) : DataStore :=
  mkDataStore (filter (λ it, it.1 ≠ format) (entries d) ++ [(format, data)])
              (effectAllowed d).

Definition getData (format : string) (d : DataStore) : string :=
  match List.find (λ it, bool_decide (it.1 = format)) (entries d) with
  | Some it => it.2
  | None => EmptyString
  end.

Definition set_effectAllowed (effect : string) (d : DataStore) : DataStore :=
  mkDataStore (entries d) effect.

(** The [DataTransfer] a handler sees of a drag data store. *)
Definition transfer_of (d : DataStore) : DataTransfer :=
  mkDataTransfer (map fst (entries d)).

(** ** Cards ([ProjectItem], app.ts 164-205)

    Of the [li] element of a card the source writes the id and the text of
    its [h2], [h3] and [p]; [template] is the [li] of the [single-project]
    template as the page declares it. *)

Record li : Type := mkLi {
  li_id : string;
  h2_text : string;
  h3_text : string;
  p_text : string
}.

Record ProjectItem : Type := mkProjectItem {
  project : loc;
  element : li
}.

(** [new ProjectItem(hostId, project)]: the template is cloned, takes the
    project's id as its own unless that is the empty string
    ([if (newElementId)]), and [renderContent] fills in the three texts. *)
Definition new_ProjectItem (template : li) (h : heap) (r : loc) : option ProjectItem :=
  prj ← objects h !! r;
  Some (mkProjectItem r
          (mkLi (if bool_decide (id prj = EmptyString) then li_id template else id prj)
                (title prj) (persons prj +:+ " assigned.") (description prj))).

(** [dragStartHandler(event)]: [event.dataTransfer!] of an event without a
    data transfer throws, which is [None] here. *)
Definition dragStartHandler (item : ProjectItem) (h : heap) (dt : option DataStore)
    : option DataStore :=
  d ← dt;
  prj ← objects h !! project item;
  Some (set_effectAllowed "move" (setData "text/plain" (id prj) d)).

(** ** Columns ([ProjectList], app.ts 208-276) *)

Inductive ListType : Type := active | finished.

#[global] Instance ListType_eq_dec : EqDecision ListType.
Proof. solve_decision. Defined.

(** Of a column: its type, the projects assigned to it, and of its [ul] the
    class list and the cards it holds. *)
Record ProjectList : Type := mkProjectList {
  type : ListType;
  assignedProjects : list loc;
  classList : list string;
  children : list ProjectItem
}.

(** [this.type === 'active' ? ProjectStatus.Active : ProjectStatus.Finished] *)
Definition status_of (t : ListType) : ProjectStatus :=
  match t with
  | active => Active
  | finished => Finished
  end.

(** The filter of the listener a column registers in [configure]. *)
Definition relevant (t : ListType) (h : heap) (r : loc) : bool :=
  match objects h !! r with
  | Some prj =>
      match t with
      | active => bool_decide (status prj = Active)
      | finished => bool_decide (status prj = Finished)
      end
  | None => false
  end.

(** [renderProjects()]: the list is emptied, then one card per assigned
    project is appended, in order. *)
Definition renderProjects (template : li) (h : heap) (col : ProjectList) : ProjectList :=
  mkProjectList (type col) (assignedProjects col) (classList col)
                (omap (new_ProjectItem template h) (assignedProjects col)).

(** The listener of [configure], called with the array [items] in heap [h]. *)
Definition receive (template : li) (col : ProjectList) (h : heap) (items : list loc)
    : ProjectList :=
  renderProjects template h
    (mkProjectList (type col) (List.filter (relevant (type col) h) items)
                   (classList col) (children col)).

(** [classList.remove(token)] *)
Definition classList_remove (token : string) (cl : list string) : list string :=
  filter (λ t, t ≠ token) cl.

Definition dragLeaveHandler (col : ProjectList) : ProjectList :=
  mkProjectList (type col) (assignedProjects col)
                (classList_remove "droppable" (classList col)) (children col).

(** [dragOverHandler] on a column: the handler above on its class list. *)
Definition dragOver (event : DragEvent) (col : ProjectList) : DragEvent * ProjectList :=
  let '(event', cl) := dragOverHandler event (classList col) in
  (event', mkProjectList (type col) (assignedProjects col) cl (children col)).

(** [dropHandler(event)], [projectState] being the store the module got
    from [getInstance] when it was loaded. *)
Definition dropHandler (projectState : loc) (col : ProjectList) (dt : option DataStore)
    (h : heap) : option (heap * list event) :=
  d ← dt;
  moveProject projectState (getData "text/plain" d) (status_of (type col)) h.

(** ** What the listeners of a notification are called with

    [notify_calls] follows the loop of [notify] and keeps, for each listener
    called, its identity, the heap at the time of the call and the array it
    is handed. *)
Fixpoint notify_calls (ps : loc) (ls : list Listener) (h : heap)
    : list (nat * heap * loc) :=
  match ls with
  | [] => []
  | listenerFn :: ls' =>
      match arrays h !! ps with
      | Some items =>
          let a := next h in
          let h1 := bump 1 (set_arrays <[a := items]> h) in
          (fn_id listenerFn, h1, a) :: notify_calls ps ls' (call listenerFn a h1)
      | None => []
      end
  end.

Definition updateListeners_calls (this : loc) (h : heap) : list (nat * heap * loc) :=
  match stores h !! this with
  | Some so =>
      match fn_arrays h !! listeners so with
      | Some ls => notify_calls (projects so) ls h
      | None => []
      end
  | None => []
  end.

(** A column whose registered listener is the function [k], after the calls
    of one notification. *)
Definition deliver (template : li) (k : nat) (col : ProjectList)
    (calls : list (nat * heap * loc)) : ProjectList :=
  foldl (λ c call, let '(f, hc, a) := call in
                   if bool_decide (f = k)
                   then receive template c hc (default [] (arrays hc !! a))
                   else c)
        col calls.

(** ** Text as the form holds it

    A string value of the language is a sequence of 16-bit code units.  The
    store only copies and compares strings, and the strings above have one
    character for each code unit below 256.  What is typed into the form is
    any text, and the gate measures and trims it, so the form and the gate
    on its fields are modelled on sequences of code units, given as numbers.

    [String.prototype.trim] removes from both ends the code units of
    WhiteSpace (TAB, VT, FF, SPACE, NBSP, ZWNBSP and the other space
    separators U+1680, U+2000 to U+200A, U+202F, U+205F and U+3000) and of
    LineTerminator (LF, CR, U+2028 and U+2029).  All of them are single code
    units, so no half of a surrogate pair is ever removed; [length] counts
    code units.

    [units s] is the text a string above stands for. *)

Definition units (s : string) : list N := map N_of_ascii (list_ascii_of_string s).

Module UTF16.

Definition text : Type := list N.

Definition is_WhiteSpace (u : N) : bool :=
  ((0x0009 <=? u) && (u <=? 0x000D) || (u =? 0x0020) || (u =? 0x00A0) ||
   (u =? 0x1680) || (0x2000 <=? u) && (u <=? 0x200A) ||
   (u =? 0x2028) || (u =? 0x2029) || (u =? 0x202F) || (u =? 0x205F) ||
   (u =? 0x3000) || (u =? 0xFEFF))%N.

Fixpoint trim_start (s : text) : text :=
  match s with
  | [] => []
  | u :: s' => if is_WhiteSpace u then trim_start s' else s
  end.

Fixpoint trim_end (s : text) : text :=
  match s with
  | [] => []
  | u :: s' =>
      match trim_end s' with
      | [] => if is_WhiteSpace u then [] else [u]
      | t => u :: t
      end
  end.

Definition trim (s : text) : text := trim_end (trim_start s).

Inductive string_or_number : Type :=
  | VString (s : text)
  | VNumber (x : number).

(** [interface Validatable] *)
Record Validatable : Type := mkValidatable {
  value : string_or_number;
  required : option bool;
  minLength : option number;
  maxLength : option number;
  min : option number;
  max : option number
}.

(** [value.toString()]; a number prints in characters below 128. *)
Definition value_to_string (v : string_or_number) : text :=
  match v with
  | VString s => s
  | VNumber x => units (to_string x)
  end.

(** [validate] (app.ts 92-114) *)
Definition validate (validatableInput : Validatable) : bool :=
  let isValid := true in
  let isValid :=
    if truthy (required validatableInput) then
      isValid &&
      negb (length (trim (value_to_string (value validatableInput))) =? 0)%nat
    else isValid in
  let isValid :=
    match minLength validatableInput, value validatableInput with
    | Some ml, VString s => isValid && number_ge (of_nat (length s)) ml
    | _, _ => isValid
    end in
  let isValid :=
    match maxLength validatableInput, value validatableInput with
    | Some ml, VString s => isValid && number_le (of_nat (length s)) ml
    | _, _ => isValid
    end in
  let isValid :=
    match min validatableInput, value validatableInput with
    | Some lo, VNumber x => isValid && number_ge x lo
    | _, _ => isValid
    end in
  let isValid :=
    match max validatableInput, value validatableInput with
    | Some hi, VNumber x => isValid && number_le x hi
    | _, _ => isValid
    end in
  isValid.

End UTF16.

(** ** The form ([ProjectInput], app.ts 279-353)

    Of the form the source reads and writes the values of its three fields.
    [ToNumber] is the conversion [+text] of the language from a string to a
    number. *)

Record ProjectInput : Type := mkProjectInput {
  titleElement : UTF16.text;
  descriptionElement : UTF16.text;
  peopleElement : UTF16.text
}.

(** [gatherInputs()]: the triple, or nothing after an [alert]. *)
Definition gatherInputs (ToNumber : UTF16.text → number) (inp : ProjectInput)
    : option (UTF16.text * UTF16.text * number) * list string :=
  let title := titleElement inp in
  let description := descriptionElement inp in
  let people := ToNumber (peopleElement inp) in
  let titleValidatable :=
    UTF16.mkValidatable (UTF16.VString title) (Some true) None None None None in
  let descriptionValidatable :=
    UTF16.mkValidatable (UTF16.VString description) (Some true) (Some (of_Z 5))
                        None None None in
  let peopleValidatable :=
    UTF16.mkValidatable (UTF16.VNumber people) (Some true) None None
                        (Some (of_Z 1)) (Some (of_Z 5)) in
  if negb (UTF16.validate titleValidatable) ||
     negb (UTF16.validate descriptionValidatable) ||
     negb (UTF16.validate peopleValidatable)
  then (None, ["please add valid inputs"])
  else (Some (title, description, people), []).

Definition clearInputs (inp : ProjectInput) : ProjectInput :=
  mkProjectInput [] [] [].

(** A call of a method of [projectState], with its arguments. *)
Inductive store_call : Type :=
  | Call_addProject (title description : UTF16.text) (numOfPeople : number).

(** What [submitHandler] leaves behind: the form once the handler has
    returned, the calls it has made to the store, the alerts shown and
    whether the default of the event was prevented. *)
Record Submitted : Type := mkSubmitted {
  form_after : ProjectInput;
  store_calls : list store_call;
  alerts : list string;
  prevented : bool
}.

(** [submitHandler(e)] *)
Definition submitHandler (ToNumber : UTF16.text → number) (inp : ProjectInput)
    : Submitted :=
  match gatherInputs ToNumber inp with
  | (Some (title, description, people), shown) =>
      mkSubmitted (clearInputs inp) [Call_addProject title description people] shown true
  | (None, shown) => mkSubmitted inp [] shown true
  end.

(** The calls made by [addProject] and by [moveProject], which notify from
    the heap they have written to. *)
Definition addProject_calls (this : loc) (rnd : number) (title description : string)
    (numOfPeople : number) (h : heap) : list (nat * heap * loc) :=
  match stores h !! this with
  | Some so =>
      match arrays h !! projects so with
      | Some items =>
          let newProject := mkProject (to_string rnd) title description numOfPeople Active in
          let r := next h in
          updateListeners_calls this
            (bump 1 (set_arrays <[projects so := items ++ [r]]>
                       (set_objects <[r := newProject]> h)))
      | None => []
      end
  | None => []
  end.

Definition moveProject_calls (this : loc) (projectId : string) (newStatus : ProjectStatus)
    (h : heap) : list (nat * heap * loc) :=
  match stores h !! this with
  | Some so =>
      match arrays h !! projects so with
      | Some items =>
          updateListeners_calls this (moveProject_assign h items projectId newStatus)
      | None => []
      end
  | None => []
  end.

(** The card template and the two columns of a page, before any project. *)
Definition card_template : li := mkLi "single" EmptyString EmptyString EmptyString.

Definition activePrjList : ProjectList := mkProjectList active [] [] [].
Definition finishedPrjList : ProjectList := mkProjectList finished [] [] [].

(** * Properties *)

(** ** Numbers and strings *)

Local Open Scope Z_scope.

Lemma length_append (s t : string) :
  String.length (s +:+ t) = (String.length s + String.length t)%nat.
Proof. induction s as [|c s IH]; simpl; [reflexivity | now rewrite IH]. Qed.

Lemma no_white_space_append (s t : string) :
  no_white_space (s +:+ t) = no_white_space s && no_white_space t.
Proof.
  induction s as [|c s IH]; simpl; [reflexivity|].
  rewrite IH. now rewrite andb_assoc.
Qed.

Lemma no_white_space_substring (s : string) :
  no_white_space s = true → ∀ n m, no_white_space (substring n m s) = true.
Proof.
  induction s as [|c s IH]; intros Hs n m.
  - destruct n, m; reflexivity.
  - simpl in Hs. apply andb_prop in Hs as [Hc Hs].
    destruct n as [|n]; simpl.
    + destruct m as [|m]; simpl; [reflexivity|].
      rewrite Hc. simpl. now apply IH.
    + now apply IH.
Qed.

Lemma no_white_space_zeros (n : nat) : no_white_space (zeros n) = true.
Proof. induction n as [|n IH]; simpl; [reflexivity | exact IH]. Qed.

Lemma no_white_space_digits (d : Decimal.uint) :
  no_white_space (NilEmpty.string_of_uint d) = true.
Proof. induction d; simpl; try reflexivity; exact IHd. Qed.

Lemma no_white_space_decimal (n : N) : no_white_space (decimal_of_N n) = true.
Proof.
  unfold decimal_of_N, NilZero.string_of_uint.
  destruct (N.to_uint n); try reflexivity; apply no_white_space_digits.
Qed.

Lemma revapp_nonnil (d a : Decimal.uint) :
  Decimal.revapp d a = Decimal.Nil → d = Decimal.Nil ∧ a = Decimal.Nil.
Proof.
  revert a. induction d; intros a H; simpl in H;
    try (apply IHd in H as [_ H]; discriminate H).
  now split.
Qed.

Lemma strip0_nil (d r : Decimal.uint) (z : nat) :
  strip0 d = (r, z) → r = Decimal.Nil → Unsigned.of_lu d = 0%N.
Proof.
  revert r z. induction d; intros r z H Hr; simpl in H;
    try (injection H as <- _; discriminate Hr).
  - reflexivity.
  - destruct (strip0 d) as [r' z'] eqn:E. injection H as -> _.
    simpl. rewrite (IHd r z' eq_refl Hr). reflexivity.
Qed.

Lemma of_lu_to_little_uint (p : positive) :
  Unsigned.of_lu (Pos.to_little_uint p) = Npos p.
Proof.
  rewrite <- Unsigned.of_lu_rev. exact (Unsigned.of_to p).
Qed.

Lemma digits_nonempty (p : positive) (lds : Decimal.uint) (z : nat) :
  strip0 (Pos.to_little_uint p) = (lds, z) →
  (0 < String.length (NilEmpty.string_of_uint (Decimal.rev lds)))%nat.
Proof.
  intros H.
  destruct (Decimal.rev lds) eqn:E; simpl; try lia.
  apply revapp_nonnil in E as [E _].
  pose proof (strip0_nil _ _ _ H E) as H0.
  rewrite of_lu_to_little_uint in H0. discriminate H0.
Qed.

Lemma to_string_pos_shape (p : positive) (e : Z) :
  no_white_space (to_string_pos p e) = true ∧
  (0 < String.length (to_string_pos p e))%nat.
Proof.
  unfold to_string_pos.
  destruct (strip0 (Pos.to_little_uint p)) as [lds z] eqn:E.
  pose proof (digits_nonempty _ _ _ E) as Hk.
  pose proof (no_white_space_digits (Decimal.rev lds)) as Hd.
  set (ds := NilEmpty.string_of_uint (Decimal.rev lds)) in *.
  set (n := e + Z.of_nat z + Z.of_nat (String.length ds)).
  assert (Hsign : no_white_space (if n <? 0 then "-" else "+") = true)
    by (destruct (n <? 0); reflexivity).
  repeat match goal with
         | |- context [if ?b then _ else _] => destruct b
         end;
    rewrite ?no_white_space_append, ?length_append, ?no_white_space_zeros,
      ?no_white_space_decimal, ?Hd, ?Hsign, ?(no_white_space_substring ds Hd);
    simpl; (split; [reflexivity | lia]).
Qed.

Lemma to_string_shape (x : number) :
  no_white_space (to_string x) = true ∧ (0 < String.length (to_string x))%nat.
Proof.
  destruct x as [|[]|neg [|p] e]; try (simpl; split; [reflexivity | lia]).
  destruct (to_string_pos_shape p e) as [Hw Hl].
  unfold to_string. destruct neg.
  - change ("-" +:+ to_string_pos p e) with (String "-" (to_string_pos p e)).
    cbn [no_white_space String.length]. rewrite Hw. split; [reflexivity | lia].
  - change (EmptyString +:+ to_string_pos p e) with (to_string_pos p e).
    split; assumption.
Qed.

Lemma trim_start_no_white_space (s : string) :
  no_white_space s = true → trim_start s = s.
Proof.
  destruct s as [|c s]; simpl; [reflexivity|].
  intros H. apply andb_prop in H as [Hc _].
  destruct (is_white_space c); [discriminate Hc | reflexivity].
Qed.

Lemma trim_end_no_white_space (s : string) :
  no_white_space s = true → trim_end s = s.
Proof.
  induction s as [|c s IH]; simpl; [reflexivity|].
  intros H. apply andb_prop in H as [Hc Hs].
  rewrite (IH Hs). destruct s; [|reflexivity].
  destruct (is_white_space c); [discriminate Hc | reflexivity].
Qed.

Lemma trim_no_white_space (s : string) : no_white_space s = true → trim s = s.
Proof.
  intros H. unfold trim. rewrite (trim_start_no_white_space _ H).
  now apply trim_end_no_white_space.
Qed.

(** Printing a number never yields a blank string: [trim] leaves it as it
    is, and it has at least one character. *)
Lemma trim_to_string (x : number) :
  trim (to_string x) = to_string x ∧ String.length (trim (to_string x)) ≠ 0%nat.
Proof.
  destruct (to_string_shape x) as [Hw Hl].
  rewrite (trim_no_white_space _ Hw). split; [reflexivity | lia].
Qed.

Local Close Scope Z_scope.

(** ** The validation gate *)

Example to_string_samples :
  to_string NaN = "NaN" ∧ to_string (Fin true 0 0) = "0" ∧
  to_string (of_Z 3) = "3" ∧ to_string (Fin false 25 (-2)) = "0.25" ∧
  to_string (Fin false 1 21) = "1e+21" ∧ to_string (Fin true 123 (-9)) = "-1.23e-7".
Proof. repeat split; vm_compute; reflexivity. Qed.

(** C8: the four test vectors of the validation gate:
    [validate] of the empty string with [required: true] is false,
    [validate({value:"ab", required:true, minLength:5})] is false,
    [validate({value:3, required:true, min:1, max:5})] is true and
    [validate({value:6, min:1, max:5})] is false. *)
Theorem validate_test_vectors :
  validate (mkValidatable (VString EmptyString) (Some true) None None None None) = false ∧
  validate (mkValidatable (VString "ab") (Some true) (Some (of_Z 5)) None None None) = false ∧
  validate (mkValidatable (VNumber (of_Z 3)) (Some true) None None
              (Some (of_Z 1)) (Some (of_Z 5))) = true ∧
  validate (mkValidatable (VNumber (of_Z 6)) None None None
              (Some (of_Z 1)) (Some (of_Z 5))) = false.
Proof. repeat split; vm_compute; reflexivity. Qed.

(** C10: for every number (NaN, the infinities and the zeros included) the
    [required] rule holds, because the trimmed printed form of a number is
    never empty; so whatever the options, [validate] on a number is the
    conjunction of its [min] and [max] rules alone. *)
Theorem validate_number_required (x : number) (req : option bool)
    (minL maxL lo hi : option number) :
  String.length (trim (value_to_string (VNumber x))) ≠ 0%nat ∧
  validate (mkValidatable (VNumber x) req minL maxL lo hi) =
    match lo with Some l => number_ge x l | None => true end &&
    match hi with Some u => number_le x u | None => true end.
Proof.
  destruct (trim_to_string x) as [_ Hlen]. split; [exact Hlen|].
  unfold validate; simpl.
  apply Nat.eqb_neq in Hlen. rewrite Hlen.
  destruct (truthy req), minL, maxL, lo, hi; simpl;
    rewrite ?andb_true_r; reflexivity.
Qed.

(** ** The drag-over handler *)

(** C5: the handler prevents the default and marks the list droppable
    exactly when a data transfer is present whose first type is
    ['text/plain']; in every other case, also when ['text/plain'] comes
    later in the type list, the event and the class list are left as they
    were. *)
Theorem dragOverHandler_plain_text (event : DragEvent) (ul : list string) :
  (offers_plain_text event = true ↔
     ∃ dt rest, dataTransfer event = Some dt ∧ types dt = "text/plain" :: rest) ∧
  (offers_plain_text event = true →
     defaultPrevented (dragOverHandler event ul).1 = true ∧
     "droppable" ∈ (dragOverHandler event ul).2 ∧
     dragOverHandler event ul = (preventDefault event, classList_add "droppable" ul)) ∧
  (offers_plain_text event = false → dragOverHandler event ul = (event, ul)) ∧
  (∀ dt t rest, dataTransfer event = Some dt → types dt = t :: rest →
     t ≠ "text/plain" → dragOverHandler event ul = (event, ul)).
Proof.
  unfold dragOverHandler, offers_plain_text.
  repeat split.
  - destruct (dataTransfer event) as [dt|]; [|discriminate].
    intros H. apply bool_decide_eq_true in H.
    destruct (types dt) as [|t rest] eqn:E; [discriminate H|].
    simpl in H. injection H as ->. eauto.
  - intros (dt & rest & -> & E). rewrite E. reflexivity.
  - rewrite H. reflexivity.
  - rewrite H. simpl. unfold classList_add. case_bool_decide as Hin; [exact Hin|].
    apply elem_of_app. right. apply list_elem_of_singleton. reflexivity.
  - rewrite H. reflexivity.
  - intros ->. reflexivity.
  - intros dt t rest -> E Ht. rewrite E. simpl.
    rewrite bool_decide_eq_false_2; [reflexivity | congruence].
Qed.

Example dragOverHandler_plain_text_second :
  dragOverHandler (mkDragEvent (Some (mkDataTransfer ["text/html"; "text/plain"])) false) []
  = (mkDragEvent (Some (mkDataTransfer ["text/html"; "text/plain"])) false, []).
Proof. reflexivity. Qed.

Example dragOverHandler_plain_text_first :
  dragOverHandler (mkDragEvent (Some (mkDataTransfer ["text/plain"])) false) []
  = (mkDragEvent (Some (mkDataTransfer ["text/plain"])) true, ["droppable"]).
Proof. reflexivity. Qed.

(** ** Heap frames *)

Lemma frame_refl n h : frame n h h.
Proof. unfold frame; naive_solver. Qed.

Lemma frame_trans n h1 h2 h3 : frame n h1 h2 → frame n h2 h3 → frame n h1 h3.
Proof.
  intros (?&?&?&?&Ha&Ho) (?&?&?&?&Ha'&Ho').
  repeat split; try congruence; try lia.
  - intros a Hlt. rewrite Ha', Ha; auto.
  - auto.
Qed.

Lemma quiet_refl n h : quiet n h h.
Proof. intros r _. reflexivity. Qed.

Lemma quiet_trans n h1 h2 h3 : quiet n h1 h2 → quiet n h2 h3 → quiet n h1 h3.
Proof. intros H1 H2 r Hr. rewrite H2, H1; auto. Qed.

Lemma heap_ok_bump k h : heap_ok h → heap_ok (bump k h).
Proof.
  intros (Ho & Ha & Hf & Hs).
  repeat split; intros i x Hi; simpl in *;
    [apply Ho in Hi | apply Ha in Hi | apply Hf in Hi | apply Hs in Hi]; simpl in *; lia.
Qed.

Lemma map_Forall_insert_lt {A} (m : gmap nat A) (a n k : nat) (x : A) :
  a < k → n ≤ k → map_Forall (λ i _, i < n) m →
  map_Forall (λ i _, i < k) (<[a := x]> m).
Proof.
  intros Hlt Hle Hm i y Hi.
  destruct (decide (a = i)) as [->|Hne].
  - exact Hlt.
  - rewrite lookup_insert_ne in Hi by exact Hne. apply Hm in Hi. simpl in Hi. lia.
Qed.

Lemma map_Forall_weaken_lt {A} (m : gmap nat A) (n k : nat) :
  n ≤ k → map_Forall (λ i _, i < n) m → map_Forall (λ i _, i < k) m.
Proof. intros Hle Hm i y Hi. apply Hm in Hi. simpl in Hi. lia. Qed.

Lemma map_Forall_alter_lt {A} (m : gmap nat A) (n a : nat) (g : A → A) :
  map_Forall (λ i _, i < n) m → map_Forall (λ i _, i < n) (alter g a m).
Proof.
  intros Hm i y Hi.
  destruct (decide (a = i)) as [->|Hne].
  - rewrite lookup_alter_eq in Hi. destruct (m !! i) as [z|] eqn:E; [|discriminate].
    exact (Hm i z E).
  - rewrite lookup_alter_ne in Hi by exact Hne. exact (Hm i y Hi).
Qed.

(** ** What a listener call can and cannot change *)

Lemma apply_mutation_frame (n a : nat) (m : mutation) (h : heap) :
  n ≤ a → frame n h (apply_mutation a m h).
Proof.
  intros Hle. destruct m as [g|p|i w]; simpl.
  - repeat split; simpl; auto.
    intros a0 Ha0. rewrite lookup_alter_ne by lia. reflexivity.
  - repeat split; simpl; auto.
    + intros a0 Ha0. rewrite lookup_alter_ne by lia. reflexivity.
    + intros r [x Hx]. destruct (decide (next h = r)) as [->|Hne].
      * rewrite lookup_insert_eq. eauto.
      * rewrite lookup_insert_ne by exact Hne. eauto.
  - destruct (arrays h !! a) as [l|]; [|apply frame_refl].
    destruct (l !! i) as [r|]; [|apply frame_refl].
    repeat split; simpl; auto.
    intros r0 [x Hx]. destruct (decide (r = r0)) as [->|Hne].
    + rewrite lookup_alter_eq, Hx. simpl. eauto.
    + rewrite lookup_alter_ne by exact Hne. eauto.
Qed.

Lemma apply_mutation_heap_ok (a : nat) (m : mutation) (h : heap) :
  heap_ok h → heap_ok (apply_mutation a m h).
Proof.
  intros (Ho & Ha & Hf & Hs). destruct m as [g|p|i w]; simpl.
  - repeat split; simpl; auto. now apply map_Forall_alter_lt.
  - repeat split; simpl.
    + eapply map_Forall_insert_lt; [| |exact Ho]; lia.
    + apply map_Forall_alter_lt. eapply map_Forall_weaken_lt; [|exact Ha]. lia.
    + eapply map_Forall_weaken_lt; [|exact Hf]. lia.
    + eapply map_Forall_weaken_lt; [|exact Hs]. lia.
  - destruct (arrays h !! a) as [l|]; [|repeat split; assumption].
    destruct (l !! i) as [r|]; [|repeat split; assumption].
    repeat split; simpl; auto. now apply map_Forall_alter_lt.
Qed.

Lemma apply_mutation_quiet (n a : nat) (m : mutation) (h : heap) :
  n ≤ next h → is_elem_write m = false → quiet n h (apply_mutation a m h).
Proof.
  intros Hn Hm r Hr. destruct m as [g|p|i w]; simpl; try discriminate.
  - reflexivity.
  - rewrite lookup_insert_ne by lia. reflexivity.
Qed.

Lemma mutations_frame (n a : nat) (ms : list mutation) (h : heap) :
  n ≤ a → n ≤ next h → heap_ok h →
  let h' := foldl (λ h' m, apply_mutation a m h') h ms in
  frame n h h' ∧ heap_ok h' ∧
  (Forall (λ m, is_elem_write m = false) ms → quiet n h h').
Proof.
  intros Hle. revert h. induction ms as [|m ms IH]; intros h Hn Hok; simpl.
  - split; [apply frame_refl|]. split; [exact Hok|]. intros _. apply quiet_refl.
  - pose proof (apply_mutation_frame n a m h Hle) as Hf1.
    assert (Hn' : n ≤ next (apply_mutation a m h))
      by (destruct Hf1 as (_&_&_&Hnx&_); lia).
    destruct (IH (apply_mutation a m h) Hn' (apply_mutation_heap_ok a m h Hok))
      as (Hf & Hok' & Hq).
    split; [|split].
    + eapply frame_trans; [exact Hf1 | exact Hf].
    + exact Hok'.
    + intros Hall. apply Forall_cons in Hall as [Hm Hall].
      eapply quiet_trans; [apply (apply_mutation_quiet n a m h Hn Hm) | auto].
Qed.

Lemma call_frame (n a : nat) (f : Listener) (h : heap) :
  n ≤ a → n ≤ next h → heap_ok h →
  frame n h (call f a h) ∧ heap_ok (call f a h) ∧
  (no_field_writes f → quiet n h (call f a h)).
Proof.
  intros Hle Hn Hok. unfold call.
  destruct (mutations_frame n a
              (fn_body f (view h (default [] (arrays h !! a)))) h Hle Hn Hok)
    as (Hf & Hok' & Hq).
  split; [exact Hf | split; [exact Hok' | intros Hno; apply Hq; apply Hno]].
Qed.

(** Handing out [this.projects.slice()]: a new array at [next h]. *)
Lemma slice_frame (n : nat) (items : list loc) (h : heap) :
  n ≤ next h → heap_ok h →
  let h1 := bump 1 (set_arrays <[next h := items]> h) in
  frame n h h1 ∧ heap_ok h1 ∧ quiet n h h1.
Proof.
  intros Hle (Ho & Ha & Hf & Hs). simpl. split; [|split].
  - repeat split; simpl; auto.
    intros a Ha0. rewrite lookup_insert_ne by lia. reflexivity.
  - repeat split; simpl.
    + eapply map_Forall_weaken_lt; [|exact Ho]. lia.
    + eapply map_Forall_insert_lt; [| |exact Ha]; lia.
    + eapply map_Forall_weaken_lt; [|exact Hf]. lia.
    + eapply map_Forall_weaken_lt; [|exact Hs]. lia.
  - intros r _. reflexivity.
Qed.

(** ** The notification loop *)

Lemma notify_spec (n ps : nat) (ls : list Listener) (h : heap) (items : list loc) :
  heap_ok h → n ≤ next h → ps < n → arrays h !! ps = Some items →
  ∃ h' tr,
    notify ps ls h = Some (h', tr) ∧
    heap_ok h' ∧ frame n h h' ∧
    map event_fn tr = map fn_id ls ∧
    Forall (λ ev, event_items ev = items ∧ next h ≤ event_snapshot ev < next h') tr ∧
    NoDup (map event_snapshot tr) ∧
    (Forall no_field_writes ls → quiet n h h').
Proof.
  revert h. induction ls as [|f ls IH]; intros h Hok Hn Hps Hitems.
  - exists h, []. simpl.
    split; [reflexivity|]. split; [exact Hok|]. split; [apply frame_refl|].
    split; [reflexivity|]. split; [constructor|]. split; [constructor|].
    intros _. apply quiet_refl.
  - simpl. rewrite Hitems. simpl.
    destruct (slice_frame n items h Hn Hok) as (Hf1 & Hok1 & Hq1).
    set (h1 := bump 1 (set_arrays <[next h := items]> h)) in *.
    assert (Hn1 : n ≤ next h1) by (simpl; lia).
    destruct (call_frame n (next h) f h1 Hn Hn1 Hok1) as (Hf2 & Hok2 & Hq2).
    set (h2 := call f (next h) h1) in *.
    assert (Hn2 : n ≤ next h2) by (destruct Hf2 as (_&_&_&Hnx&_); lia).
    assert (Hnext2 : S (next h) ≤ next h2)
      by (destruct Hf2 as (_&_&_&Hnx&_); simpl in Hnx; lia).
    assert (Hitems2 : arrays h2 !! ps = Some items).
    { destruct Hf2 as (_&_&_&_&Ha2&_). rewrite (Ha2 ps Hps).
      destruct Hf1 as (_&_&_&_&Ha1&_). rewrite (Ha1 ps Hps). exact Hitems. }
    destruct (IH h2 Hok2 Hn2 Hps Hitems2) as (h' & tr & Hrun & Hok' & Hf' & Hfns & Hevs & Hnd & Hq').
    exists h', (Notified (fn_id f) (next h) items :: tr).
    rewrite Hrun. simpl.
    assert (Hnext' : next h2 ≤ next h') by (destruct Hf' as (_&_&_&Hnx&_); exact Hnx).
    split; [reflexivity|]. split; [exact Hok'|]. split; [|split; [|split; [|split]]].
    + eapply frame_trans; [exact Hf1|]. eapply frame_trans; [exact Hf2 | exact Hf'].
    + now rewrite Hfns.
    + constructor; [simpl; split; [reflexivity | lia]|].
      eapply Forall_impl; [exact Hevs|]. simpl. intros ev [He Hb]. split; [exact He | lia].
    + constructor; [|exact Hnd].
      intros Hin. apply list_elem_of_fmap in Hin as (ev & Hev & Hin).
      rewrite Forall_forall in Hevs. apply Hevs in Hin as [_ Hb]. lia.
    + intros Hall. apply Forall_cons in Hall as [Hnf Hall].
      eapply quiet_trans; [exact Hq1|]. eapply quiet_trans; [exact (Hq2 Hnf) | exact (Hq' Hall)].
Qed.

(** ** The store operations *)

Lemma updateListeners_spec (h : heap) (this : loc) (so : ProjectState)
    (items : list loc) (ls : list Listener) :
  heap_ok h → stores h !! this = Some so →
  arrays h !! projects so = Some items → fn_arrays h !! listeners so = Some ls →
  ∃ h' tr,
    updateListeners this h = Some (h', tr) ∧
    heap_ok h' ∧ frame (next h) h h' ∧
    map event_fn tr = map fn_id ls ∧
    Forall (λ ev, event_items ev = items ∧ next h ≤ event_snapshot ev < next h') tr ∧
    NoDup (map event_snapshot tr) ∧
    (Forall no_field_writes ls → quiet (next h) h h').
Proof.
  intros Hok Hso Hitems Hls. unfold updateListeners. rewrite Hso. simpl.
  rewrite Hls. simpl.
  apply notify_spec; auto.
  destruct Hok as (_ & Ha & _). apply Ha in Hitems. exact Hitems.
Qed.

Lemma frame_store_ok (n : nat) (h h' : heap) (this : loc) (so : ProjectState) :
  frame n h h' → stores h !! this = Some so → projects so < n →
  store_ok h this → store_ok h' this.
Proof.
  intros (Hs & Hf & _ & _ & Ha & Ho) Hso Hlt (so' & items & ls & Hso' & Hi & Hl & Hall).
  rewrite Hso in Hso'. injection Hso' as <-.
  exists so, items, ls. rewrite Hs, Hf, (Ha _ Hlt).
  repeat split; try assumption.
  eapply Forall_impl; [exact Hall|]. exact Ho.
Qed.

Lemma store_ok_items (h : heap) (this : loc) (items : list loc) :
  store_ok h this → store_items h this = Some items →
  ∃ so ls, stores h !! this = Some so ∧ arrays h !! projects so = Some items ∧
           fn_arrays h !! listeners so = Some ls ∧
           store_listeners h this = Some ls ∧
           Forall (λ r, is_Some (objects h !! r)) items.
Proof.
  intros (so & items' & ls & Hso & Hi & Hl & Hall) Hitems.
  unfold store_items in Hitems. rewrite Hso in Hitems. simpl in Hitems.
  rewrite Hi in Hitems. injection Hitems as ->.
  exists so, ls. unfold store_listeners. rewrite Hso. simpl. auto.
Qed.

Lemma heap_ok_fresh (h : heap) :
  heap_ok h →
  objects h !! next h = None ∧ arrays h !! next h = None ∧
  fn_arrays h !! next h = None ∧ stores h !! next h = None.
Proof.
  intros (Ho & Ha & Hf & Hs).
  repeat split; apply eq_None_not_Some; intros [x Hx];
    [apply Ho in Hx | apply Ha in Hx | apply Hf in Hx | apply Hs in Hx];
    simpl in Hx; lia.
Qed.

Lemma addProject_spec (h : heap) (this : loc) (rnd : number) (t d : string)
    (n : number) (so : ProjectState) (items : list loc) (ls : list Listener) :
  heap_ok h → stores h !! this = Some so →
  arrays h !! projects so = Some items → fn_arrays h !! listeners so = Some ls →
  Forall (λ r, is_Some (objects h !! r)) items →
  ∃ h1 h' tr,
    addProject this rnd t d n h = updateListeners this h1 ∧
    objects h1 = <[next h := mkProject (to_string rnd) t d n Active]> (objects h) ∧
    stores h1 = stores h ∧ arrays h1 !! projects so = Some (items ++ [next h]) ∧
    addProject this rnd t d n h = Some (h', tr) ∧
    heap_ok h' ∧ store_ok h' this ∧
    stores h' = stores h ∧ fn_arrays h' = fn_arrays h ∧ instance h' = instance h ∧
    arrays h' !! projects so = Some (items ++ [next h]) ∧
    (∀ a, a < next h → a ≠ projects so → arrays h' !! a = arrays h !! a) ∧
    map event_fn tr = map fn_id ls ∧
    Forall (λ ev, event_items ev = items ++ [next h] ∧ next h < event_snapshot ev) tr ∧
    NoDup (map event_snapshot tr) ∧
    (Forall no_field_writes ls →
       objects h' !! next h = Some (mkProject (to_string rnd) t d n Active) ∧
       ∀ r, r < next h → objects h' !! r = objects h !! r).
Proof.
  intros Hok Hso Hitems Hls Hall.
  unfold addProject. rewrite Hso. simpl. rewrite Hitems. simpl.
  set (p := mkProject (to_string rnd) t d n Active).
  set (h1 := bump 1 (set_arrays <[projects so := items ++ [next h]]>
                       (set_objects <[next h := p]> h))).
  assert (Hps : projects so < next h).
  { destruct Hok as (_ & Ha & _). apply Ha in Hitems. exact Hitems. }
  assert (Hok1 : heap_ok h1).
  { destruct Hok as (Ho & Ha & Hf & Hs). repeat split; simpl.
    - eapply map_Forall_insert_lt; [| |exact Ho]; lia.
    - eapply map_Forall_insert_lt; [| |exact Ha]; lia.
    - eapply map_Forall_weaken_lt; [|exact Hf]. lia.
    - eapply map_Forall_weaken_lt; [|exact Hs]. lia. }
  assert (Hitems1 : arrays h1 !! projects so = Some (items ++ [next h]))
    by (simpl; apply lookup_insert_eq).
  destruct (updateListeners_spec h1 this so (items ++ [next h]) ls Hok1 Hso Hitems1 Hls)
    as (h' & tr & Hrun & Hok' & Hfr & Hfns & Hevs & Hnd & Hq).
  exists h1, h', tr. split; [reflexivity|]. split; [reflexivity|].
  split; [reflexivity|]. split; [exact Hitems1|].
  split; [exact Hrun|]. split; [exact Hok'|].
  pose proof Hfr as (Hst & Hfa & Hin & Hnx & Harr & Hobj).
  assert (Hn1 : next h1 = S (next h)) by reflexivity.
  assert (Hps1 : projects so < next h1) by lia.
  split; [|split; [|split; [|split; [|split; [|split; [|split; [|split; [|split]]]]]]]].
  - exists so, (items ++ [next h]), ls. rewrite Hst, Hfa, (Harr _ Hps1).
    repeat split; try assumption.
    apply Forall_app. split.
    + eapply Forall_impl; [exact Hall|]. intros r [x Hx]. apply Hobj. simpl.
      destruct (decide (next h = r)) as [->|Hne].
      * rewrite lookup_insert_eq. eauto.
      * rewrite lookup_insert_ne by exact Hne. eauto.
    + constructor; [|constructor]. apply Hobj. simpl. rewrite lookup_insert_eq. eauto.
  - exact Hst.
  - exact Hfa.
  - exact Hin.
  - rewrite (Harr _ Hps1). exact Hitems1.
  - intros a Ha Hne. rewrite Harr by lia. simpl.
    now rewrite lookup_insert_ne.
  - exact Hfns.
  - eapply Forall_impl; [exact Hevs|]. simpl. intros ev [He Hb]. split; [exact He | lia].
  - exact Hnd.
  - intros Hno. specialize (Hq Hno). split.
    + rewrite Hq by lia. simpl. apply lookup_insert_eq.
    + intros r Hr. rewrite Hq by lia. simpl.
      rewrite lookup_insert_ne by lia. reflexivity.
Qed.

Lemma find_project_Some (h : heap) (items : list loc) (pid : string) (r : loc) :
  find_project h items pid = Some r →
  r ∈ items ∧ ∃ p, objects h !! r = Some p ∧ id p = pid.
Proof.
  intros H. apply find_some in H as [Hin Hp].
  split; [now apply list_elem_of_In|].
  destruct (objects h !! r) as [p|]; [|discriminate Hp].
  exists p. split; [reflexivity|]. now apply bool_decide_eq_true in Hp.
Qed.

Lemma find_project_None (h : heap) (items : list loc) (pid : string) :
  find_project h items pid = None ↔
  ∀ r p, r ∈ items → objects h !! r = Some p → id p ≠ pid.
Proof.
  split.
  - intros H r p Hin Hp Hid.
    pose proof (find_none _ _ H r (proj1 (list_elem_of_In _ _) Hin)) as Hf.
    simpl in Hf. rewrite Hp in Hf. apply bool_decide_eq_false in Hf. contradiction.
  - intros H. destruct (find_project h items pid) as [r|] eqn:E; [|reflexivity].
    apply find_project_Some in E as (Hin & p & Hp & Hid).
    exfalso. exact (H r p Hin Hp Hid).
Qed.

(** The search only reads the identifiers. *)
Lemma find_project_ext (h h' : heap) (items : list loc) (pid : string) :
  (∀ r, r ∈ items → id <$> objects h' !! r = id <$> objects h !! r) →
  find_project h' items pid = find_project h items pid.
Proof.
  unfold find_project. induction items as [|r items IH]; intros H; [reflexivity|].
  simpl. pose proof (H r (list_elem_of_here _ _)) as Hr.
  assert (Hsame : match objects h' !! r with
                  | Some prj => bool_decide (id prj = pid) | None => false end =
                  match objects h !! r with
                  | Some prj => bool_decide (id prj = pid) | None => false end).
  { destruct (objects h' !! r), (objects h !! r); simpl in Hr; try discriminate;
      try reflexivity. injection Hr as ->. reflexivity. }
  rewrite Hsame. destruct (match objects h !! r with Some _ => _ | None => _ end);
    [reflexivity|].
  apply IH. intros r0 Hr0. apply H. now apply list_elem_of_further.
Qed.

(** When the identifier is held by one project only, the search finds it. *)
Lemma find_project_unique (h : heap) (items : list loc) (r : loc) (p : Project) :
  r ∈ items → objects h !! r = Some p →
  (∀ r0 p0, r0 ∈ items → objects h !! r0 = Some p0 → id p0 = id p → r0 = r) →
  find_project h items (id p) = Some r.
Proof.
  intros Hin Hp Huniq.
  destruct (find_project h items (id p)) as [r'|] eqn:E.
  - apply find_project_Some in E as (Hin' & p' & Hp' & Hid).
    now rewrite (Huniq r' p' Hin' Hp' Hid).
  - exfalso. exact (proj1 (find_project_None _ _ _) E r p Hin Hp eq_refl).
Qed.

Lemma assign_status_same (p : Project) : assign (SetStatus (status p)) p = p.
Proof. destruct p; reflexivity. Qed.

Lemma moveProject_assign_shape (h : heap) (items : list loc) (pid : string)
    (s : ProjectStatus) :
  let h1 := moveProject_assign h items pid s in
  stores h1 = stores h ∧ arrays h1 = arrays h ∧ fn_arrays h1 = fn_arrays h ∧
  instance h1 = instance h ∧ next h1 = next h ∧
  match find_project h items pid with
  | Some r => ∃ p, r ∈ items ∧ objects h !! r = Some p ∧ id p = pid ∧
                   objects h1 = <[r := assign (SetStatus s) p]> (objects h)
  | None => h1 = h
  end.
Proof.
  unfold moveProject_assign.
  destruct (find_project h items pid) as [r|] eqn:E; [|repeat split; reflexivity].
  apply find_project_Some in E as (Hin & p & Hp & Hid). rewrite Hp.
  case_bool_decide as Hs.
  - repeat split; try reflexivity. exists p. auto.
  - repeat split; try reflexivity. exists p. repeat split; try assumption.
    rewrite <- Hs, assign_status_same.
    symmetry. now apply insert_id.
Qed.

Lemma moveProject_assign_ok (h : heap) (items : list loc) (pid : string)
    (s : ProjectStatus) :
  heap_ok h → heap_ok (moveProject_assign h items pid s).
Proof.
  intros Hok.
  destruct (moveProject_assign_shape h items pid s) as (Hs & Ha & Hf & _ & Hn & Hobj).
  destruct Hok as (Ho & Ha' & Hf' & Hs').
  unfold heap_ok. rewrite Hs, Ha, Hf, Hn. repeat split; try assumption.
  destruct (find_project h items pid) as [r|]; [|now rewrite Hobj].
  destruct Hobj as (p & _ & Hp & _ & ->).
  eapply map_Forall_insert_lt; [| |exact Ho]; [|lia].
  apply Ho in Hp. exact Hp.
Qed.

Lemma moveProject_unfold (h : heap) (this : loc) (pid : string) (s : ProjectStatus)
    (so : ProjectState) (items : list loc) :
  stores h !! this = Some so → arrays h !! projects so = Some items →
  moveProject this pid s h = updateListeners this (moveProject_assign h items pid s).
Proof. intros Hso Hitems. unfold moveProject. rewrite Hso. simpl. now rewrite Hitems. Qed.

Lemma moveProject_spec (h : heap) (this : loc) (pid : string) (s : ProjectStatus)
    (so : ProjectState) (items : list loc) (ls : list Listener) :
  heap_ok h → stores h !! this = Some so →
  arrays h !! projects so = Some items → fn_arrays h !! listeners so = Some ls →
  Forall (λ r, is_Some (objects h !! r)) items →
  ∃ h' tr,
    moveProject this pid s h = Some (h', tr) ∧
    heap_ok h' ∧ store_ok h' this ∧
    stores h' = stores h ∧ fn_arrays h' = fn_arrays h ∧ instance h' = instance h ∧
    (∀ a, a < next h → arrays h' !! a = arrays h !! a) ∧
    map event_fn tr = map fn_id ls ∧
    Forall (λ ev, event_items ev = items ∧ next h ≤ event_snapshot ev) tr ∧
    NoDup (map event_snapshot tr) ∧
    (Forall no_field_writes ls →
       ∀ r, r < next h →
         objects h' !! r = objects (moveProject_assign h items pid s) !! r).
Proof.
  intros Hok Hso Hitems Hls Hall.
  unfold moveProject. rewrite Hso. simpl. rewrite Hitems. simpl.
  pose proof (moveProject_assign_ok h items pid s Hok) as Hok1.
  destruct (moveProject_assign_shape h items pid s) as (Hs1 & Ha1 & Hf1 & Hi1 & Hn1 & Hobj1).
  set (h1 := moveProject_assign h items pid s) in *.
  assert (Hso1 : stores h1 !! this = Some so) by now rewrite Hs1.
  assert (Hitems1 : arrays h1 !! projects so = Some items) by now rewrite Ha1.
  assert (Hls1 : fn_arrays h1 !! listeners so = Some ls) by now rewrite Hf1.
  destruct (updateListeners_spec h1 this so items ls Hok1 Hso1 Hitems1 Hls1)
    as (h' & tr & Hrun & Hok' & Hfr & Hfns & Hevs & Hnd & Hq).
  exists h', tr. split; [exact Hrun|]. split; [exact Hok'|].
  pose proof Hfr as (Hst & Hfa & Hin & Hnx & Harr & Hobj).
  assert (Hps : projects so < next h).
  { destruct Hok as (_ & Ha & _). apply Ha in Hitems. exact Hitems. }
  assert (Hall1 : Forall (λ r, is_Some (objects h1 !! r)) items).
  { eapply Forall_impl; [exact Hall|]. intros r [x Hx].
    destruct (find_project h items pid) as [r0|]; [|now rewrite Hobj1; eauto].
    destruct Hobj1 as (p & _ & _ & _ & ->).
    destruct (decide (r0 = r)) as [->|Hne].
    - rewrite lookup_insert_eq. eauto.
    - rewrite lookup_insert_ne by exact Hne. eauto. }
  split; [|split; [|split; [|split; [|split; [|split; [|split; [|split]]]]]]].
  - eapply (frame_store_ok (next h1) h1 h' this so Hfr Hso1); [lia|].
    exists so, items, ls. auto.
  - congruence.
  - congruence.
  - congruence.
  - intros a Ha. rewrite Harr by lia. now rewrite Ha1.
  - exact Hfns.
  - eapply Forall_impl; [exact Hevs|]. simpl. intros ev [He Hb]. split; [exact He | lia].
  - exact Hnd.
  - intros Hno r Hr. apply (Hq Hno). lia.
Qed.

Lemma started_reached :
  (let '(this, h0) := getInstance empty_heap in
   h1 ← addListener this (column_listener 0) h0;
   h2 ← addListener this (column_listener 1) h1;
   Some (this, h2)) = Some (0, started).
Proof. vm_compute. reflexivity. Qed.

Lemma board_reached :
  addProject 0 (Fin false 25 (-2)) "Build API" "Implement REST endpoints" (of_Z 3) started
  = Some (board, [Notified 0 4 [3]; Notified 1 5 [3]]).
Proof. vm_compute. reflexivity. Qed.

Lemma meddled_reached :
  (let '(this, h0) := getInstance empty_heap in
   '(h1, _) ← addProject this (Fin false 25 (-2)) "Build API"
                 "Implement REST endpoints" (of_Z 3) h0;
   h2 ← addListener this meddler h1;
   Some (this, h2)) = Some (0, meddled).
Proof. vm_compute. reflexivity. Qed.

Lemma heap_ok_board : heap_ok board.
Proof. repeat split; compute_done. Qed.

Lemma store_ok_board : store_ok board 0.
Proof.
  exists (mkProjectState 1 2), [3], [column_listener 0; column_listener 1].
  repeat split; try reflexivity.
  constructor; [|constructor]. exists build_api. reflexivity.
Qed.



Lemma no_field_writes_column (k : nat) : no_field_writes (column_listener k).
Proof. intros ps. constructor. Qed.

Lemma heap_ok_empty : heap_ok empty_heap.
Proof. repeat split; intros i x Hi; simpl in Hi; rewrite lookup_empty in Hi; discriminate. Qed.

Lemma store_projects_ext (h h' : heap) (this : loc) (items : list loc) :
  store_items h this = Some items → store_items h' this = Some items →
  (∀ r, r ∈ items → objects h' !! r = objects h !! r) →
  store_projects h' this = store_projects h this.
Proof.
  intros Hi Hi' Hsame. unfold store_projects. rewrite Hi, Hi'. simpl.
  clear Hi Hi'. induction items as [|r items IH]; [reflexivity|].
  simpl. rewrite (Hsame r (list_elem_of_here _ _)).
  rewrite IH; [reflexivity|].
  intros r0 Hr0. apply Hsame. now apply list_elem_of_further.
Qed.

Lemma addListener_spec (h : heap) (this : loc) (f : Listener) (so : ProjectState)
    (items : list loc) (ls : list Listener) :
  heap_ok h → stores h !! this = Some so →
  arrays h !! projects so = Some items → fn_arrays h !! listeners so = Some ls →
  Forall (λ r, is_Some (objects h !! r)) items →
  let h' := set_fn_arrays <[listeners so := ls ++ [f]]> h in
  addListener this f h = Some h' ∧ heap_ok h' ∧ store_ok h' this ∧
  store_listeners h' this = Some (ls ++ [f]) ∧ store_items h' this = Some items.
Proof.
  intros Hok Hso Hitems Hls Hall h'.
  unfold addListener. rewrite Hso. simpl. rewrite Hls. simpl.
  split; [reflexivity|].
  assert (Hl' : fn_arrays h' !! listeners so = Some (ls ++ [f]))
    by (simpl; apply lookup_insert_eq).
  split; [|split; [|split]].
  - destruct Hok as (Ho & Ha & Hf & Hs). repeat split; simpl; try assumption.
    eapply map_Forall_insert_lt; [| |exact Hf]; [|lia].
    apply Hf in Hls. exact Hls.
  - exists so, items, (ls ++ [f]). auto.
  - unfold store_listeners. simpl. rewrite Hso. simpl. apply lookup_insert_eq.
  - unfold store_items. simpl. rewrite Hso. simpl. exact Hitems.
Qed.

Lemma new_ProjectState_spec (h : heap) :
  heap_ok h →
  let this := (new_ProjectState h).1 in
  let h' := (new_ProjectState h).2 in
  this = next h ∧ heap_ok h' ∧ store_ok h' this ∧
  stores h' !! this = Some (mkProjectState (S (next h)) (S (S (next h)))) ∧
  arrays h' !! S (S (next h)) = Some [] ∧ fn_arrays h' !! S (next h) = Some [] ∧
  instance h' = instance h ∧ next h' = 3 + next h ∧
  (∀ s so, stores h !! s = Some so → stores h' !! s = Some so).
Proof.
  intros Hok. simpl.
  destruct (heap_ok_fresh h Hok) as (_ & _ & _ & Hfresh).
  destruct Hok as (Ho & Ha & Hf & Hs).
  assert (Hst : (<[next h := mkProjectState (S (next h)) (S (S (next h)))]> (stores h))
                !! next h = Some (mkProjectState (S (next h)) (S (S (next h)))))
    by apply lookup_insert_eq.
  assert (Har : (<[S (S (next h)) := []]> (arrays h)) !! S (S (next h)) = Some [])
    by apply lookup_insert_eq.
  assert (Hfa : (<[S (next h) := []]> (fn_arrays h)) !! S (next h)
                = Some ([] : list Listener))
    by apply lookup_insert_eq.
  split; [reflexivity|]. split; [|split; [|split; [|split; [|split; [|split; [|split]]]]]];
    try assumption; try reflexivity.
  - repeat split; simpl.
    + eapply map_Forall_weaken_lt; [|exact Ho]. lia.
    + eapply map_Forall_insert_lt; [| |exact Ha]; lia.
    + eapply map_Forall_insert_lt; [| |exact Hf]; lia.
    + eapply map_Forall_insert_lt; [| |exact Hs]; lia.
  - exists (mkProjectState (S (next h)) (S (S (next h)))), [], [].
    simpl. repeat split; try assumption. constructor.
  - intros s so Hso. simpl. rewrite lookup_insert_ne; [exact Hso|].
    intros <-. rewrite Hfresh in Hso. discriminate.
Qed.

(** ** Any run of the store operations *)

Lemma notify_partial (n ps : loc) (ls : list Listener) (h h' : heap) (tr : list event) :
  notify ps ls h = Some (h', tr) → heap_ok h → n ≤ next h →
  heap_ok h' ∧ frame n h h'.
Proof.
  revert h tr. induction ls as [|f ls IH]; intros h tr H Hok Hn; simpl in H.
  - injection H as <- _. split; [exact Hok | apply frame_refl].
  - destruct (arrays h !! ps) as [items|]; [|discriminate H]. simpl in H.
    destruct (slice_frame n items h Hn Hok) as (Hf1 & Hok1 & _).
    set (h1 := bump 1 (set_arrays <[next h := items]> h)) in *.
    assert (Hn1 : n ≤ next h1) by (simpl; lia).
    destruct (call_frame n (next h) f h1 Hn Hn1 Hok1) as (Hf2 & Hok2 & _).
    assert (Hn2 : n ≤ next (call f (next h) h1))
      by (destruct Hf2 as (_&_&_&Hnx&_); lia).
    destruct (notify ps ls (call f (next h) h1)) as [[h2 tr2]|] eqn:E;
      [|discriminate H].
    simpl in H. injection H as <- _.
    destruct (IH _ _ E Hok2 Hn2) as (Hok' & Hf').
    split; [exact Hok'|].
    eapply frame_trans; [exact Hf1|]. eapply frame_trans; [exact Hf2 | exact Hf'].
Qed.

Lemma updateListeners_partial (this : loc) (h h' : heap) (tr : list event) :
  updateListeners this h = Some (h', tr) → heap_ok h →
  heap_ok h' ∧ frame (next h) h h'.
Proof.
  unfold updateListeners. intros H Hok.
  destruct (stores h !! this) as [so|]; [|discriminate H]. simpl in H.
  destruct (fn_arrays h !! listeners so) as [ls|]; [|discriminate H]. simpl in H.
  exact (notify_partial _ _ _ _ _ _ H Hok (Nat.le_refl _)).
Qed.

Lemma step_preserves (h h' : heap) :
  step h h' → heap_ok h → instance h = None →
  heap_ok h' ∧ instance h' = None ∧ next h ≤ next h' ∧
  (∀ s so, stores h !! s = Some so → stores h' !! s = Some so).
Proof.
  intros Hstep Hok Hnone. destruct Hstep as [h|h this f h' H|h this rnd t d n h' tr H|h this pid s h' tr H].
  - unfold getInstance. rewrite Hnone.
    destruct (new_ProjectState_spec h Hok) as (_ & Hok' & _ & _ & _ & _ & Hi & Hn & Hs).
    rewrite Hi, Hn. split; [exact Hok'|]. split; [exact Hnone|]. split; [lia | exact Hs].
  - unfold addListener in H.
    destruct (stores h !! this) as [so|]; [|discriminate H]. simpl in H.
    destruct (fn_arrays h !! listeners so) as [ls|] eqn:Hls; [|discriminate H].
    simpl in H. injection H as <-. simpl.
    split; [|split; [exact Hnone | split; [lia | auto]]].
    destruct Hok as (Ho & Ha & Hf & Hs). repeat split; simpl; try assumption.
    eapply map_Forall_insert_lt; [| |exact Hf]; [|lia].
    apply Hf in Hls. exact Hls.
  - unfold addProject in H.
    destruct (stores h !! this) as [so|]; [|discriminate H]. simpl in H.
    destruct (arrays h !! projects so) as [items|] eqn:Hitems; [|discriminate H].
    simpl in H.
    apply updateListeners_partial in H as (Hok' & Hst & _ & Hin & Hnx & _).
    + simpl in *. split; [exact Hok'|]. split; [congruence|]. split; [lia|].
      intros s0 so0 Hs0. now rewrite Hst.
    + destruct Hok as (Ho & Ha & Hf & Hs). repeat split; simpl.
      * eapply map_Forall_insert_lt; [| |exact Ho]; lia.
      * eapply map_Forall_insert_lt; [| |exact Ha]; [|lia].
        apply Ha in Hitems. simpl in Hitems. lia.
      * eapply map_Forall_weaken_lt; [|exact Hf]. lia.
      * eapply map_Forall_weaken_lt; [|exact Hs]. lia.
  - unfold moveProject in H.
    destruct (stores h !! this) as [so|]; [|discriminate H]. simpl in H.
    destruct (arrays h !! projects so) as [items|] eqn:Hitems; [|discriminate H].
    simpl in H.
    destruct (moveProject_assign_shape h items pid s) as (Hs1 & _ & _ & Hi1 & Hn1 & _).
    apply updateListeners_partial in H as (Hok' & Hst & _ & Hin & Hnx & _);
      [|now apply moveProject_assign_ok].
    split; [exact Hok'|]. split; [congruence|]. split; [lia|].
    intros s0 so0 Hs0. now rewrite Hst, Hs1.
Qed.

Lemma steps_preserve (h h' : heap) :
  rtc step h h' → heap_ok h → instance h = None →
  heap_ok h' ∧ instance h' = None ∧ next h ≤ next h' ∧
  (∀ s so, stores h !! s = Some so → stores h' !! s = Some so).
Proof.
  induction 1 as [h|h hm h' Hstep _ IH]; intros Hok Hnone.
  - split; [exact Hok|]. split; [exact Hnone|]. split; [lia | auto].
  - destruct (step_preserves _ _ Hstep Hok Hnone) as (Hok1 & Hn1 & Hle1 & Hs1).
    destruct (IH Hok1 Hn1) as (Hok2 & Hn2 & Hle2 & Hs2).
    split; [exact Hok2|]. split; [exact Hn2|]. split; [lia | auto].
Qed.

Lemma store_ok_change (h h1 : heap) (s : loc) :
  store_ok h s →
  (∀ s0 so, stores h !! s0 = Some so → stores h1 !! s0 = Some so) →
  (∀ a, is_Some (fn_arrays h !! a) → is_Some (fn_arrays h1 !! a)) →
  (∀ a items, arrays h !! a = Some items →
     Forall (λ r, is_Some (objects h !! r)) items →
     ∃ items', arrays h1 !! a = Some items' ∧
               Forall (λ r, is_Some (objects h1 !! r)) items') →
  store_ok h1 s.
Proof.
  intros (so & items & ls & Hso & Hi & Hl & Hall) Hst Hfa Harr.
  destruct (Harr _ _ Hi Hall) as (items' & Hi' & Hall').
  destruct (Hfa (listeners so) (mk_is_Some _ _ Hl)) as [ls' Hl'].
  exists so, items', ls'. auto.
Qed.

Lemma step_stores_ok (h h' : heap) :
  step h h' → heap_ok h → instance h = None → stores_ok h → stores_ok h'.
Proof.
  intros Hstep Hok Hnone Hsok.
  destruct Hstep as [h|h this f h' H|h this rnd t d n h' tr H|h this pid s h' tr H].
  - unfold getInstance. rewrite Hnone.
    destruct (new_ProjectState_spec h Hok) as (Hs & _ & Hnew & _). rewrite Hs in Hnew.
    intros s0 [so0 Hso0]. simpl in Hso0.
    destruct (decide (next h = s0)) as [<-|Hne]; [exact Hnew|].
    rewrite lookup_insert_ne in Hso0 by exact Hne.
    apply (store_ok_change h _ s0 (Hsok s0 (mk_is_Some _ _ Hso0))); simpl.
    + intros s1 so1 Hs1. rewrite lookup_insert_ne; [exact Hs1|].
      intros <-. destruct (heap_ok_fresh h Hok) as (_ & _ & _ & Hf). congruence.
    + intros a [x Hx]. destruct (decide (S (next h) = a)) as [<-|Hna].
      * rewrite lookup_insert_eq. eauto.
      * rewrite lookup_insert_ne by exact Hna. eauto.
    + intros a items Ha Hall. exists items. split; [|exact Hall].
      rewrite lookup_insert_ne; [exact Ha|].
      intros <-. destruct Hok as (_ & Harr & _). apply Harr in Ha. simpl in Ha. lia.
  - unfold addListener in H.
    destruct (stores h !! this) as [so|]; [|discriminate H]. simpl in H.
    destruct (fn_arrays h !! listeners so) as [ls|] eqn:Hls; [|discriminate H].
    simpl in H. injection H as <-.
    intros s0 Hs0. apply (store_ok_change h _ s0 (Hsok s0 Hs0)); simpl; auto.
    + intros a [x Hx]. destruct (decide (listeners so = a)) as [<-|Hna].
      * rewrite lookup_insert_eq. eauto.
      * rewrite lookup_insert_ne by exact Hna. eauto.
    + intros a items Ha Hall. eauto.
  - unfold addProject in H.
    destruct (stores h !! this) as [so|]; [|discriminate H]. simpl in H.
    destruct (arrays h !! projects so) as [items|] eqn:Hitems; [|discriminate H].
    simpl in H.
    set (h1 := bump 1 _) in H.
    assert (Hobj1 : ∀ r, is_Some (objects h !! r) → is_Some (objects h1 !! r)).
    { intros r [x Hx]. simpl. destruct (decide (next h = r)) as [<-|Hne].
      - rewrite lookup_insert_eq. eauto.
      - rewrite lookup_insert_ne by exact Hne. eauto. }
    assert (Hok1 : heap_ok h1).
    { destruct Hok as (Ho & Ha & Hf & Hs). repeat split; simpl.
      - eapply map_Forall_insert_lt; [| |exact Ho]; lia.
      - eapply map_Forall_insert_lt; [| |exact Ha]; [|lia].
        apply Ha in Hitems. simpl in Hitems. lia.
      - eapply map_Forall_weaken_lt; [|exact Hf]. lia.
      - eapply map_Forall_weaken_lt; [|exact Hs]. lia. }
    destruct (updateListeners_partial _ _ _ _ H Hok1) as (_ & Hfr).
    intros s0 [so0 Hso0].
    assert (Hso0' : stores h !! s0 = Some so0).
    { destruct Hfr as (Hst & _). rewrite Hst in Hso0. exact Hso0. }
    pose proof (Hsok s0 (mk_is_Some _ _ Hso0')) as Hs0.
    assert (Hlt : projects so0 < next h1).
    { destruct Hs0 as (so' & items' & ls' & Hso' & Hi' & _).
      rewrite Hso0' in Hso'. injection Hso' as <-.
      destruct Hok as (_ & Ha & _). apply Ha in Hi'. simpl in *. lia. }
    apply (frame_store_ok (next h1) h1 h' s0 so0 Hfr Hso0' Hlt).
    apply (store_ok_change h h1 s0 Hs0); simpl; auto.
    intros a items0 Ha Hall.
    destruct (decide (projects so = a)) as [<-|Hna].
    + rewrite lookup_insert_eq. eexists. split; [reflexivity|].
      rewrite Hitems in Ha. injection Ha as <-.
      apply Forall_app. split.
      * eapply Forall_impl; [exact Hall | exact Hobj1].
      * constructor; [|constructor]. rewrite lookup_insert_eq. eauto.
    + rewrite lookup_insert_ne by exact Hna. exists items0. split; [exact Ha|].
      eapply Forall_impl; [exact Hall | exact Hobj1].
  - unfold moveProject in H.
    destruct (stores h !! this) as [so|]; [|discriminate H]. simpl in H.
    destruct (arrays h !! projects so) as [items|] eqn:Hitems; [|discriminate H].
    simpl in H.
    pose proof (moveProject_assign_ok h items pid s Hok) as Hok1.
    destruct (moveProject_assign_shape h items pid s) as (Hs1 & Ha1 & Hf1 & _ & Hn1 & Hobj).
    set (h1 := moveProject_assign h items pid s) in *.
    assert (Hobj1 : ∀ r, is_Some (objects h !! r) → is_Some (objects h1 !! r)).
    { intros r [x Hx]. destruct (find_project h items pid) as [r0|]; [|rewrite Hobj; eauto].
      destruct Hobj as (p & _ & _ & _ & ->).
      destruct (decide (r0 = r)) as [<-|Hne].
      - rewrite lookup_insert_eq. eauto.
      - rewrite lookup_insert_ne by exact Hne. eauto. }
    destruct (updateListeners_partial _ _ _ _ H Hok1) as (_ & Hfr).
    intros s0 [so0 Hso0].
    assert (Hso0' : stores h !! s0 = Some so0).
    { destruct Hfr as (Hst & _). rewrite Hst, Hs1 in Hso0. exact Hso0. }
    pose proof (Hsok s0 (mk_is_Some _ _ Hso0')) as Hs0.
    assert (Hlt : projects so0 < next h1).
    { destruct Hs0 as (so' & items' & ls' & Hso' & Hi' & _).
      rewrite Hso0' in Hso'. injection Hso' as <-.
      destruct Hok as (_ & Ha & _). apply Ha in Hi'. simpl in *. lia. }
    assert (Hso1 : stores h1 !! s0 = Some so0) by now rewrite Hs1.
    apply (frame_store_ok (next h1) h1 h' s0 so0 Hfr Hso1 Hlt).
    apply (store_ok_change h h1 s0 Hs0).
    + intros s1 so1 Hx. now rewrite Hs1.
    + intros a Hx. now rewrite Hf1.
    + intros a items0 Ha Hall. exists items0. rewrite Ha1. split; [exact Ha|].
      eapply Forall_impl; [exact Hall | exact Hobj1].
Qed.

(** Every heap a program reaches is well formed, has an empty static slot,
    and every store in it has its arrays and its projects. *)
Lemma reachable_ok (h : heap) :
  reachable h → heap_ok h ∧ instance h = None ∧ stores_ok h.
Proof.
  unfold reachable. revert h.
  apply (rtc_ind_r (λ h, heap_ok h ∧ instance h = None ∧ stores_ok h)).
  - split; [exact heap_ok_empty|]. split; [reflexivity|].
    intros s [x Hx]. simpl in Hx. rewrite lookup_empty in Hx. discriminate.
  - intros hm h _ Hstep (Hok & Hnone & Hsok).
    destruct (step_preserves _ _ Hstep Hok Hnone) as (Hok' & Hnone' & _).
    split; [exact Hok'|]. split; [exact Hnone'|].
    exact (step_stores_ok _ _ Hstep Hok Hnone Hsok).
Qed.

(** The concrete heaps used below are heaps of actual runs. *)
Lemma reachable_board : reachable board.
Proof.
  unfold reachable.
  eapply rtc_l; [apply step_getInstance|].
  eapply rtc_l; [apply (step_addListener _ 0 (column_listener 0)); reflexivity|].
  eapply rtc_l; [apply (step_addListener _ 0 (column_listener 1)); reflexivity|].
  eapply rtc_l;
    [apply (step_addProject _ 0 (Fin false 25 (-2)) "Build API"
              "Implement REST endpoints" (of_Z 3) board [Notified 0 4 [3]; Notified 1 5 [3]]);
     vm_compute; reflexivity|].
  apply rtc_refl.
Qed.

Lemma reachable_meddled : reachable meddled.
Proof.
  unfold reachable.
  eapply rtc_l; [apply step_getInstance|].
  eapply rtc_l;
    [apply (step_addProject _ 0 (Fin false 25 (-2)) "Build API"
              "Implement REST endpoints" (of_Z 3) _ []); vm_compute; reflexivity|].
  eapply rtc_l; [apply (step_addListener _ 0 meddler); vm_compute; reflexivity|].
  vm_compute. apply rtc_refl.
Qed.


Lemma store_items_lookup (h : heap) (this : loc) (so : ProjectState) :
  stores h !! this = Some so → store_items h this = arrays h !! projects so.
Proof. intros H. unfold store_items. rewrite H. reflexivity. Qed.

Lemma items_below_next (h : heap) (items : list loc) :
  heap_ok h → Forall (λ r, is_Some (objects h !! r)) items →
  ∀ r, r ∈ items → r < next h.
Proof.
  intros (Ho & _) Hall r Hr. rewrite Forall_forall in Hall.
  destruct (Hall r Hr) as [x Hx]. apply Ho in Hx. exact Hx.
Qed.

(** ** The claims about the store *)







(** C7: when some project of a well-formed store has the identifier,
    [moveProject] returns.  What it writes itself, before it notifies, is
    the status of the project [r] it finds and nothing else: no array
    changes, and the objects are those of before with [r] holding its own
    id, title, description and people count.  After the call the store's
    sequence is unchanged (same references, same order, same length).  The
    listeners are the only code that runs after the assignment: when none of
    them assigns to a member of a project through the array it is handed,
    every project other than [r] is as it was and [r] has kept its id,
    title, description and people count. *)
Theorem moveProject_frame (h : heap) (this : loc) (pid : string)
    (s : ProjectStatus) (items : list loc) (ls : list Listener) :
  heap_ok h → store_ok h this →
  store_items h this = Some items → store_listeners h this = Some ls →
  (∃ r0 p0, r0 ∈ items ∧ objects h !! r0 = Some p0 ∧ id p0 = pid) →
  ∃ h' tr r p,
    moveProject this pid s h = Some (h', tr) ∧
    find_project h items pid = Some r ∧ objects h !! r = Some p ∧
    updateListeners this (moveProject_assign h items pid s) = Some (h', tr) ∧
    arrays (moveProject_assign h items pid s) = arrays h ∧
    objects (moveProject_assign h items pid s)
      = <[r := mkProject (id p) (title p) (description p) (people p) s]> (objects h) ∧
    store_items h' this = Some items ∧
    (Forall no_field_writes ls →
       (∀ r', r' ∈ items → r' ≠ r → objects h' !! r' = objects h !! r') ∧
       ∃ p', objects h' !! r = Some p' ∧
             id p' = id p ∧ title p' = title p ∧
             description p' = description p ∧ people p' = people p).
Proof.
  intros Hok Hsok Hitems Hls (r0 & p0 & Hin0 & Hp0 & Hid0).
  destruct (store_ok_items h this items Hsok Hitems)
    as (so & ls' & Hso & Harr & Hfa & Hls' & Hall).
  rewrite Hls in Hls'. injection Hls' as <-.
  destruct (moveProject_spec h this pid s so items ls Hok Hso Harr Hfa Hall)
    as (h' & tr & Hrun & Hok' & Hsok' & Hst & Hfa' & _ & Harr' & Hfns & _ & _ & Hq).
  assert (Hps : projects so < next h).
  { destruct Hok as (_ & Ha & _). apply Ha in Harr. exact Harr. }
  destruct (moveProject_assign_shape h items pid s) as (_ & Ha1 & _ & _ & _ & Hobj).
  destruct (find_project h items pid) as [r|] eqn:Hfind.
  2:{ exfalso. exact (proj1 (find_project_None _ _ _) Hfind r0 p0 Hin0 Hp0 Hid0). }
  destruct Hobj as (p & Hin & Hp & Hid & Hobj).
  exists h', tr, r, p. split; [exact Hrun|]. split; [reflexivity|]. split; [exact Hp|].
  split; [now rewrite <- (moveProject_unfold h this pid s so items Hso Harr)|].
  split; [exact Ha1|]. split; [exact Hobj|].
  split.
  { unfold store_items. rewrite Hst, Hso. simpl. now rewrite Harr'. }
  intros Hno. specialize (Hq Hno). split.
  - intros r' Hr' Hne.
    rewrite Hq by exact (items_below_next h items Hok Hall r' Hr').
    rewrite Hobj. now rewrite lookup_insert_ne.
  - exists (assign (SetStatus s) p). split; [|repeat split].
    rewrite Hq by exact (items_below_next h items Hok Hall r Hin).
    rewrite Hobj. apply lookup_insert_eq.
Qed.

Lemma moveProject_frame_witness :
  heap_ok board ∧ store_ok board 0 ∧
  (∃ r0 p0, r0 ∈ [3] ∧ objects board !! r0 = Some p0 ∧ id p0 = "0.25") ∧
  ∃ h' tr p',
    moveProject 0 "0.25" Finished board = Some (h', tr) ∧
    store_items h' 0 = Some [3] ∧
    objects h' !! 3 = Some p' ∧ title p' = "Build API".
Proof.
  assert (Hex : ∃ r0 p0, r0 ∈ [3] ∧ objects board !! r0 = Some p0 ∧ id p0 = "0.25").
  { exists 3, build_api. split; [apply list_elem_of_here|]. split; reflexivity. }
  split; [exact heap_ok_board|]. split; [exact store_ok_board|]. split; [exact Hex|].
  destruct (moveProject_frame board 0 "0.25" Finished [3]
              [column_listener 0; column_listener 1]
              heap_ok_board store_ok_board eq_refl eq_refl Hex)
    as (h' & tr & r & p & Hrun & Hfind & Hp & _ & _ & _ & Hitems & Hq).
  injection Hfind as <-. injection Hp as <-.
  destruct Hq as (_ & p' & Hp' & _ & Ht & _); [repeat constructor|].
  exists h', tr, p'. auto.
Defined.









(** ** The accessor *)

(** C4: while the static slot is empty (and no operation of the class fills
    it), [getInstance] builds a new [ProjectState] with two new empty arrays
    and returns it, leaving the slot empty; so of any two calls, whatever
    store operations run between them, the second returns a store that did
    not exist before it, different from the first, and the two stores have
    different [projects] arrays and different [listeners] arrays. *)
Theorem getInstance_never_caches (h hm : heap) :
  heap_ok h → instance h = None →
  rtc step (getInstance h).2 hm →
  let s1 := (getInstance h).1 in
  let s2 := (getInstance hm).1 in
  let h2 := (getInstance hm).2 in
  stores h !! s1 = None ∧ instance (getInstance h).2 = None ∧
  stores hm !! s2 = None ∧ instance h2 = None ∧
  s1 ≠ s2 ∧
  ∃ so1 so2,
    stores h2 !! s1 = Some so1 ∧ stores h2 !! s2 = Some so2 ∧
    projects so1 ≠ projects so2 ∧ listeners so1 ≠ listeners so2 ∧
    store_items h2 s2 = Some [] ∧ store_listeners h2 s2 = Some [].
Proof.
  intros Hok Hnone Hsteps.
  assert (Hg1 : getInstance h = new_ProjectState h)
    by (unfold getInstance; now rewrite Hnone).
  rewrite Hg1 in *.
  destruct (new_ProjectState_spec h Hok)
    as (Hs1 & Hok1 & _ & Hso1 & _ & _ & Hi1 & Hn1 & _).
  rewrite Hnone in Hi1.
  destruct (steps_preserve _ _ Hsteps Hok1 Hi1) as (Hokm & Him & Hle & Hkeep).
  assert (Hg2 : getInstance hm = new_ProjectState hm)
    by (unfold getInstance; now rewrite Him).
  rewrite Hg2.
  destruct (new_ProjectState_spec hm Hokm)
    as (Hs2 & Hok2 & _ & Hso2 & Harr2 & Hfa2 & Hi2 & _ & Hkeep2).
  cbv zeta. rewrite Hn1 in Hle.
  split; [rewrite Hs1; apply (heap_ok_fresh h Hok)|]. split; [exact Hi1|].
  split; [rewrite Hs2; apply (heap_ok_fresh hm Hokm)|].
  split; [now rewrite Hi2|].
  split; [rewrite Hs1, Hs2; lia|].
  exists (mkProjectState (S (next h)) (S (S (next h)))),
         (mkProjectState (S (next hm)) (S (S (next hm)))).
  split; [apply Hkeep2, Hkeep; exact Hso1|]. split; [exact Hso2|].
  split; [simpl; lia|]. split; [simpl; lia|].
  unfold store_items, store_listeners. rewrite Hso2. simpl. auto.
Qed.

Lemma getInstance_never_caches_witness :
  heap_ok empty_heap ∧ instance empty_heap = None ∧
  (getInstance empty_heap).1 = 0 ∧
  (getInstance (set_fn_arrays <[1 := [column_listener 0]]> (getInstance empty_heap).2)).1 = 3 ∧
  (getInstance empty_heap).1 ≠
  (getInstance (set_fn_arrays <[1 := [column_listener 0]]> (getInstance empty_heap).2)).1.
Proof.
  split; [exact heap_ok_empty|]. split; [reflexivity|].
  split; [reflexivity|]. split; [reflexivity|].
  assert (Hsteps : rtc step (getInstance empty_heap).2
            (set_fn_arrays <[1 := [column_listener 0]]> (getInstance empty_heap).2)).
  { apply rtc_once. apply (step_addListener _ 0 (column_listener 0)). reflexivity. }
  exact (proj1 (proj2 (proj2 (proj2 (proj2
           (getInstance_never_caches empty_heap _ heap_ok_empty eq_refl Hsteps)))))).
Defined.

(** * Further properties *)

(** ** The validation gate on strings and on integers *)

Lemma trim_start_blank (s : UTF16.text) :
  forallb UTF16.is_WhiteSpace s = true → UTF16.trim_start s = [].
Proof.
  induction s as [|u s IH]; simpl; [reflexivity|].
  intros H. apply andb_prop in H as [Hu Hs]. rewrite Hu. auto.
Qed.

Lemma trim_start_not_blank (s : UTF16.text) :
  forallb UTF16.is_WhiteSpace s = false →
  ∃ u s', UTF16.trim_start s = u :: s' ∧ UTF16.is_WhiteSpace u = false.
Proof.
  induction s as [|u s IH]; simpl; [discriminate|].
  destruct (UTF16.is_WhiteSpace u) eqn:Hu; simpl; [exact IH|].
  intros _. exists u, s. auto.
Qed.

Lemma trim_end_nonempty (u : N) (s : UTF16.text) :
  UTF16.is_WhiteSpace u = false → UTF16.trim_end (u :: s) ≠ [].
Proof.
  intros Hu. simpl. destruct (UTF16.trim_end s); [rewrite Hu|]; discriminate.
Qed.

(** [trim] leaves nothing exactly of the texts made of white space. *)
Lemma trim_empty_iff (s : UTF16.text) :
  length (UTF16.trim s) = 0 ↔ forallb UTF16.is_WhiteSpace s = true.
Proof.
  unfold UTF16.trim. split.
  - intros H. destruct (forallb UTF16.is_WhiteSpace s) eqn:Hb; [reflexivity|].
    destruct (trim_start_not_blank s Hb) as (u & s' & Hs & Hu).
    rewrite Hs in H. pose proof (trim_end_nonempty u s' Hu) as Hne.
    destruct (UTF16.trim_end (u :: s')); [contradiction | discriminate H].
  - intros Hb. rewrite (trim_start_blank s Hb). reflexivity.
Qed.

Lemma trim_length_blank (s : UTF16.text) :
  (length (UTF16.trim s) =? 0) = forallb UTF16.is_WhiteSpace s.
Proof.
  destruct (forallb UTF16.is_WhiteSpace s) eqn:Hb.
  - apply trim_empty_iff in Hb. now rewrite Hb.
  - destruct (length (UTF16.trim s) =? 0) eqn:E; [|reflexivity].
    apply Nat.eqb_eq, trim_empty_iff in E. congruence.
Qed.

(** On the code units below 256 the white space of the text is the white
    space of the strings of the store, and [units] commutes with [trim] and
    keeps the length. *)
Lemma is_WhiteSpace_ascii (c : ascii) :
  UTF16.is_WhiteSpace (N_of_ascii c) = is_white_space c.
Proof. destruct c as [[] [] [] [] [] [] [] []]; reflexivity. Qed.

Lemma length_units (s : string) : length (units s) = String.length s.
Proof.
  unfold units. rewrite length_map.
  induction s as [|c s IH]; simpl; [reflexivity | now rewrite IH].
Qed.

Lemma units_trim_start (s : string) :
  units (trim_start s) = UTF16.trim_start (units s).
Proof.
  induction s as [|c s IH]; [reflexivity|].
  change (units (String c s)) with (N_of_ascii c :: units s).
  simpl. rewrite is_WhiteSpace_ascii.
  destruct (is_white_space c); [exact IH | reflexivity].
Qed.

Lemma units_trim_end (s : string) :
  units (trim_end s) = UTF16.trim_end (units s).
Proof.
  induction s as [|c s IH]; [reflexivity|].
  change (units (String c s)) with (N_of_ascii c :: units s).
  simpl. rewrite <- IH, is_WhiteSpace_ascii.
  destruct (trim_end s) as [|c' t]; [|reflexivity].
  change (units EmptyString) with (@nil N).
  destruct (is_white_space c); reflexivity.
Qed.

Lemma units_trim (s : string) : units (trim s) = UTF16.trim (units s).
Proof. unfold trim, UTF16.trim. now rewrite units_trim_end, units_trim_start. Qed.

Lemma units_blank (s : string) :
  forallb UTF16.is_WhiteSpace (units s) = (String.length (trim s) =? 0).
Proof. now rewrite <- trim_length_blank, <- units_trim, length_units. Qed.

Lemma validate_text (s : UTF16.text) (req : option bool)
    (minL maxL lo hi : option number) :
  UTF16.validate (UTF16.mkValidatable (UTF16.VString s) req minL maxL lo hi) =
    (if truthy req then negb (forallb UTF16.is_WhiteSpace s) else true) &&
    match minL with Some l => number_ge (of_nat (length s)) l | None => true end &&
    match maxL with Some l => number_le (of_nat (length s)) l | None => true end.
Proof.
  unfold UTF16.validate; simpl. rewrite trim_length_blank.
  destruct (truthy req), (negb (forallb UTF16.is_WhiteSpace s)), minL, maxL, lo, hi;
    simpl; rewrite ?andb_true_r; reflexivity.
Qed.

(** X1: on a string, any sequence of 16-bit code units, [validate] is the
    conjunction of three rules: [required], which holds exactly of the
    strings with a code unit that is neither white space nor a line
    terminator of the language, and the two bounds on the number of code
    units; [min] and [max] are not looked at.  On the text that a string of
    the store stands for, one code unit below 256 for each character, it is
    [validate] on that string. *)
Theorem validate_string (s : UTF16.text) (req : option bool)
    (minL maxL lo hi : option number) :
  UTF16.validate (UTF16.mkValidatable (UTF16.VString s) req minL maxL lo hi) =
    (if truthy req then negb (forallb UTF16.is_WhiteSpace s) else true) &&
    match minL with Some l => number_ge (of_nat (length s)) l | None => true end &&
    match maxL with Some l => number_le (of_nat (length s)) l | None => true end
  ∧
  ∀ s0 : string,
    validate (mkValidatable (VString s0) req minL maxL lo hi) =
    UTF16.validate (UTF16.mkValidatable (UTF16.VString (units s0)) req minL maxL lo hi).
Proof.
  split.
  - exact (validate_text s req minL maxL lo hi).
  - intros s0. unfold validate, UTF16.validate; simpl.
    rewrite <- units_trim, !length_units. reflexivity.
Qed.

Local Open Scope Z_scope.

Lemma scaled_of_Z (z : Z) : scaled (z <? 0) (Z.to_N (Z.abs z)) 0 0 = z.
Proof.
  unfold scaled. rewrite Z2N.id by apply Z.abs_nonneg.
  change (10 ^ (0 - 0)) with 1. destruct (Z.ltb_spec z 0); lia.
Qed.

Lemma number_compare_of_Z (a b : Z) :
  number_compare (of_Z a) (of_Z b) = Some (a ?= b).
Proof.
  unfold number_compare, of_Z. change (Z.min 0 0) with 0.
  now rewrite !scaled_of_Z.
Qed.

Lemma number_ge_of_Z (a b : Z) : number_ge (of_Z a) (of_Z b) = (b <=? a).
Proof.
  unfold number_ge. rewrite number_compare_of_Z.
  destruct (Z.compare_spec a b), (Z.leb_spec b a); try reflexivity; lia.
Qed.

Lemma number_le_of_Z (a b : Z) : number_le (of_Z a) (of_Z b) = (a <=? b).
Proof.
  unfold number_le. rewrite number_compare_of_Z.
  destruct (Z.compare_spec a b), (Z.leb_spec a b); try reflexivity; lia.
Qed.

Lemma validate_number (x : number) (req : option bool)
    (minL maxL lo hi : option number) :
  validate (mkValidatable (VNumber x) req minL maxL lo hi) =
    match lo with Some l => number_ge x l | None => true end &&
    match hi with Some u => number_le x u | None => true end.
Proof.
  destruct (trim_to_string x) as [_ Hlen].
  unfold validate; simpl.
  apply Nat.eqb_neq in Hlen. rewrite Hlen.
  destruct (truthy req), minL, maxL, lo, hi; simpl;
    rewrite ?andb_true_r; reflexivity.
Qed.

(** X2: on an integer with integer bounds, whatever the other options,
    [validate] accepts exactly the integers between the bounds, both
    included; with the bounds of the people field these are 1 to 5. *)
Theorem validate_integer_range (z lo hi : Z) (req : option bool)
    (minL maxL : option number) :
  validate (mkValidatable (VNumber (of_Z z)) req minL maxL
              (Some (of_Z lo)) (Some (of_Z hi))) = true
  ↔ lo ≤ z ≤ hi.
Proof.
  rewrite validate_number.
  rewrite number_ge_of_Z, number_le_of_Z, andb_true_iff, !Z.leb_le. reflexivity.
Qed.

Local Close Scope Z_scope.

(** X3: a NaN (what a field that does not read as a number becomes) passes
    the [required] rule, so with no bound it is accepted; any [min] or any
    [max] rejects it. *)
Theorem validate_NaN (req : option bool) (minL maxL lo hi : option number)
    (bound : number) :
  validate (mkValidatable (VNumber NaN) req minL maxL None None) = true ∧
  validate (mkValidatable (VNumber NaN) req minL maxL (Some bound) hi) = false ∧
  validate (mkValidatable (VNumber NaN) req minL maxL lo (Some bound)) = false.
Proof.
  rewrite !validate_number. repeat split.
  destruct lo as [l|]; [|reflexivity]. apply andb_false_r.
Qed.

(** ** The [persons] getter *)

Local Open Scope Z_scope.

Lemma strip0_value (d r : Decimal.uint) (z : nat) :
  strip0 d = (r, z) →
  Unsigned.of_lu d = (Unsigned.of_lu r * 10 ^ N.of_nat z)%N.
Proof.
  revert r z. induction d; intros r z H; simpl in H;
    try (injection H as <- <-; change (10 ^ N.of_nat 0)%N with 1%N; lia).
  destruct (strip0 d) as [r' z'] eqn:E. injection H as <- <-.
  change (Unsigned.of_lu (Decimal.D0 d)) with (10 * Unsigned.of_lu d)%N.
  rewrite (IHd r' z' eq_refl), Nat2N.inj_succ, N.pow_succ_r'. lia.
Qed.

Lemma digits_one (d : Decimal.uint) :
  NilEmpty.string_of_uint d = "1"%string → d = Decimal.D1 Decimal.Nil.
Proof.
  intros H. pose proof (NilEmpty.usu d) as Hu. rewrite H in Hu.
  simpl in Hu. now injection Hu as <-.
Qed.

Lemma append_single (s t : string) (c : ascii) :
  (s +:+ t)%string = String c EmptyString →
  (s = String c EmptyString ∧ t = EmptyString) ∨ (s = EmptyString ∧ t = String c EmptyString).
Proof.
  destruct s as [|c' s]; simpl; [auto|].
  intros H. injection H as -> H. left.
  destruct s; simpl in H; [now subst | discriminate H].
Qed.

Lemma to_string_pos_one (p : positive) (e : Z) :
  to_string_pos p e = "1"%string →
  ∃ z : nat, Npos p = (10 ^ N.of_nat z)%N ∧ e = - Z.of_nat z.
Proof.
  unfold to_string_pos.
  destruct (strip0 (Pos.to_little_uint p)) as [lds z] eqn:E.
  pose proof (digits_nonempty _ _ _ E) as Hk.
  set (ds := NilEmpty.string_of_uint (Decimal.rev lds)) in *.
  set (n := e + Z.of_nat z + Z.of_nat (String.length ds)).
  assert (Hdot : ∀ a b : string, (a +:+ "." +:+ b)%string ≠ "1"%string).
  { intros a b H. apply append_single in H as [[_ H]|[_ H]]; destruct b; discriminate H. }
  assert (He : ∀ a b : string, (a +:+ "e" +:+ b)%string ≠ "1"%string).
  { intros a b H. apply append_single in H as [[_ H]|[_ H]]; destruct b; discriminate H. }
  destruct ((-5 <=? n) && (n <=? 21)).
  - destruct (Z.leb_spec (Z.of_nat (String.length ds)) n) as [Hkn|Hkn].
    + intros H. apply append_single in H as [[Hds Hz]|[Hds _]].
      * assert (Hlen : String.length ds = 1%nat) by now rewrite Hds.
        assert (Hn : n = 1).
        { destruct (Z.to_nat n - String.length ds)%nat eqn:Hsub; [|discriminate Hz].
          lia. }
        apply digits_one in Hds.
        assert (Hl : lds = Decimal.D1 Decimal.Nil).
        { rewrite <- (DecimalFacts.rev_rev lds), Hds. reflexivity. }
        subst lds. exists z. split; [|lia].
        rewrite <- of_lu_to_little_uint, (strip0_value _ _ _ E). simpl. lia.
      * rewrite Hds in Hk. simpl in Hk. lia.
    + destruct (0 <? n); intros H.
      * destruct (Hdot _ _ H).
      * discriminate H.
  - destruct (String.length ds =? 1)%nat; intros H.
    + destruct (He _ _ H).
    + destruct (Hdot _ _ H).
Qed.

(** Only the number one prints as "1". *)
Lemma to_string_one (x : number) :
  to_string x = "1"%string → number_eq x (of_Z 1) = true.
Proof.
  destruct x as [|[]|neg [|p] e]; try discriminate.
  unfold to_string. destruct neg.
  - change ("-" +:+ to_string_pos p e)%string with (String "-" (to_string_pos p e)).
    discriminate.
  - change (EmptyString +:+ to_string_pos p e)%string with (to_string_pos p e).
    intros H. apply to_string_pos_one in H as (z & Hp & ->).
    unfold number_eq, number_compare, of_Z. simpl (1 <? 0). simpl (Z.to_N (Z.abs 1)).
    rewrite Z.min_l by lia. unfold scaled. rewrite Hp, N2Z.inj_pow, nat_N_Z.
    replace (- Z.of_nat z - - Z.of_nat z) with 0 by lia.
    replace (0 - - Z.of_nat z) with (Z.of_nat z) by lia.
    change (Z.of_N 10) with 10. change (Z.of_N 1) with 1.
    rewrite Z.pow_0_r.
    replace (1 * 10 ^ Z.of_nat z * 1) with (1 * 1 * 10 ^ Z.of_nat z) by lia.
    now rewrite Z.compare_refl.
Qed.

Local Close Scope Z_scope.

(** X4: the text of a card's head count is "1 person" exactly when the
    people count is the number one, and for no number at all is it
    "1 persons": every other count, zero, fractions and NaN included, reads
    as the printed number followed by " persons". *)
Theorem persons_singular (project : Project) :
  (persons project = "1 person" ↔ number_eq (people project) (of_Z 1) = true) ∧
  persons project ≠ "1 persons" ∧
  (number_eq (people project) (of_Z 1) = false →
   persons project = to_string (people project) +:+ " persons").
Proof.
  unfold persons.
  destruct (number_eq (people project) (of_Z 1)) eqn:E.
  - split; [split; reflexivity|]. split; [discriminate | discriminate].
  - destruct (to_string_shape (people project)) as [_ Hlen].
    split; [|split; [|reflexivity]].
    + split; [|discriminate]. intros H.
      apply (f_equal String.length) in H. rewrite length_append in H.
      simpl in H. lia.
    + intros H.
      assert (Hone : to_string (people project) = "1").
      { destruct (to_string (people project)) as [|c [|c' s]]; simpl in *.
        - lia.
        - now injection H as ->.
        - injection H as _ _ H. apply (f_equal String.length) in H.
          rewrite length_append in H. simpl in H. lia. }
      apply to_string_one in Hone. congruence.
Qed.

Lemma persons_singular_witness :
  number_eq (people (mkProject "0.5" "Docs" "Write the manual" (Fin false 25 (-1)) Active))
            (of_Z 1) = false ∧
  persons (mkProject "0.5" "Docs" "Write the manual" (Fin false 25 (-1)) Active)
  = "2.5 persons".
Proof.
  split; [reflexivity|].
  exact (proj2 (proj2 (persons_singular
           (mkProject "0.5" "Docs" "Write the manual" (Fin false 25 (-1)) Active)))
         eq_refl).
Defined.

(** ** The drag handlers of a column *)

Lemma filter_all {A} (P : A → Prop) `{!∀ x, Decision (P x)} (l : list A) :
  (∀ x, x ∈ l → P x) → filter P l = l.
Proof.
  induction l as [|x l IH]; intros Hall; [reflexivity|].
  rewrite filter_cons_True by (apply Hall; apply list_elem_of_here).
  rewrite IH; [reflexivity|]. intros y Hy. apply Hall. now apply list_elem_of_further.
Qed.

Lemma filter_none {A} (P : A → Prop) `{!∀ x, Decision (P x)} (l : list A) :
  (∀ x, x ∈ l → ¬ P x) ↔ filter P l = [].
Proof.
  induction l as [|x l IH]; simpl.
  - split; [reflexivity|]. intros _ y Hy. inversion Hy.
  - split.
    + intros Hall. rewrite filter_cons_False by (apply Hall; apply list_elem_of_here).
      apply IH. intros y Hy. apply Hall. now apply list_elem_of_further.
    + intros Hnil y Hy. rewrite filter_cons in Hnil.
      destruct (decide (P x)) as [Hx|Hx]; [discriminate Hnil|].
      apply elem_of_cons in Hy as [->|Hy]; [exact Hx|]. now apply IH.
Qed.

Lemma classList_remove_add (token : string) (cl : list string) :
  token ∉ cl → classList_remove token (classList_add token cl) = cl.
Proof.
  intros Hnot. unfold classList_add, classList_remove.
  rewrite bool_decide_eq_false_2 by exact Hnot.
  rewrite filter_app, filter_cons_False, filter_nil, app_nil_r
    by (intros H; now apply H).
  apply filter_all. intros t Ht ->. contradiction.
Qed.

Lemma classList_add_elem (token : string) (cl : list string) :
  token ∈ classList_add token cl.
Proof.
  unfold classList_add. case_bool_decide as Hin; [exact Hin|].
  apply elem_of_app. right. apply list_elem_of_here.
Qed.

Lemma classList_add_NoDup (token : string) (cl : list string) :
  NoDup cl → NoDup (classList_add token cl).
Proof.
  intros Hnd. unfold classList_add. case_bool_decide as Hin; [exact Hnd|].
  apply NoDup_app. split; [exact Hnd|]. split.
  - intros t Ht Ht'. apply list_elem_of_singleton in Ht'. now subst.
  - apply NoDup_singleton.
Qed.

(** X5: a [dragover] handled again changes nothing: the events of one hover
    arrive many times, and the first of them already leaves the event and
    the class list as every later one does; a class list without repeated
    tokens stays so, with the marker in it at most once. *)
Theorem dragOverHandler_idempotent (event : DragEvent) (ul : list string) :
  dragOverHandler (dragOverHandler event ul).1 (dragOverHandler event ul).2
    = dragOverHandler event ul ∧
  (NoDup ul → NoDup (dragOverHandler event ul).2).
Proof.
  unfold dragOverHandler.
  destruct (offers_plain_text event) eqn:E; simpl.
  - assert (E' : offers_plain_text (preventDefault event) = true) by exact E.
    rewrite E'. split.
    + f_equal. unfold classList_add at 1.
      now rewrite bool_decide_eq_true_2 by apply classList_add_elem.
    + apply classList_add_NoDup.
  - rewrite E. auto.
Qed.

Lemma dragOverHandler_idempotent_witness :
  NoDup ["projects"] ∧ NoDup (dragOverHandler
    (mkDragEvent (Some (mkDataTransfer ["text/plain"])) false) ["projects"]).2.
Proof.
  assert (H : NoDup ["projects"]) by (apply NoDup_singleton).
  split; [exact H|].
  exact (proj2 (dragOverHandler_idempotent
                  (mkDragEvent (Some (mkDataTransfer ["text/plain"])) false)
                  ["projects"]) H).
Defined.

Lemma ProjectList_eta (col : ProjectList) :
  mkProjectList (type col) (assignedProjects col) (classList col) (children col) = col.
Proof. destruct col; reflexivity. Qed.

(** X6: [dragLeaveHandler] takes the marker out of the class list, every
    occurrence of it, and leaves the other tokens, the assigned projects and
    the cards alone; on a column that had no marker, a [dragover] followed by
    a [dragleave] gives the column back as it was, whether the [dragover]
    was accepted or not. *)
Theorem dragLeaveHandler_clears (event : DragEvent) (col : ProjectList) :
  ("droppable" ∉ classList (dragLeaveHandler col)) ∧
  (∀ t, t ≠ "droppable" →
        (t ∈ classList (dragLeaveHandler col) ↔ t ∈ classList col)) ∧
  assignedProjects (dragLeaveHandler col) = assignedProjects col ∧
  children (dragLeaveHandler col) = children col ∧
  ("droppable" ∉ classList col → dragLeaveHandler (dragOver event col).2 = col).
Proof.
  split; [|split; [|split; [reflexivity|split; [reflexivity|]]]].
  - simpl. unfold classList_remove. intros H.
    apply list_elem_of_filter in H as [H _]. now apply H.
  - intros t Ht. simpl. unfold classList_remove.
    rewrite list_elem_of_filter. tauto.
  - intros Hnot. unfold dragOver, dragOverHandler, dragLeaveHandler.
    destruct (offers_plain_text event); simpl.
    + rewrite (classList_remove_add _ _ Hnot). apply ProjectList_eta.
    + unfold classList_remove. rewrite filter_all; [apply ProjectList_eta|].
      intros t Ht ->. contradiction.
Qed.

Lemma dragLeaveHandler_clears_witness :
  ("droppable" ∉ ["projects"]) ∧
  dragLeaveHandler
    (dragOver (mkDragEvent (Some (mkDataTransfer ["text/plain"])) false)
              (mkProjectList finished [] ["projects"] [])).2
  = mkProjectList finished [] ["projects"] [].
Proof.
  assert (H : "droppable" ∉ ["projects"]).
  { intros H. apply list_elem_of_singleton in H. discriminate H. }
  split; [exact H|].
  exact (proj2 (proj2 (proj2 (proj2 (dragLeaveHandler_clears
           (mkDragEvent (Some (mkDataTransfer ["text/plain"])) false)
           (mkProjectList finished [] ["projects"] []))))) H).
Defined.

(** ** The drag data store and the handshake *)

Lemma getData_setData (format data : string) (d : DataStore) :
  getData format (setData format data d) = data.
Proof.
  unfold getData, setData. simpl.
  induction (entries d) as [|it es IH]; simpl.
  - now rewrite bool_decide_eq_true_2.
  - rewrite filter_cons. destruct (decide (it.1 ≠ format)) as [Hne|He]; [|exact IH].
    simpl. now rewrite bool_decide_eq_false_2.
Qed.

Lemma getData_setData_ne (format format' data : string) (d : DataStore) :
  format' ≠ format → getData format' (setData format data d) = getData format' d.
Proof.
  intros Hne. unfold getData, setData. simpl.
  induction (entries d) as [|it es IH]; simpl.
  - rewrite bool_decide_eq_false_2; [reflexivity | congruence].
  - rewrite filter_cons. destruct (decide (it.1 ≠ format)) as [Hit|Hit]; simpl.
    + destruct (bool_decide (it.1 = format')); [reflexivity | exact IH].
    + apply dec_stable in Hit.
      rewrite (bool_decide_eq_false_2 (it.1 = format')) by congruence. exact IH.
Qed.

Lemma types_setData (format data : string) (d : DataStore) :
  types (transfer_of (setData format data d))
  = map fst (filter (λ it, it.1 ≠ format) (entries d)) ++ [format].
Proof. unfold transfer_of, setData. simpl. now rewrite map_app. Qed.

(** X7: [dragStartHandler] on an event without a data transfer fails; on
    one with a data transfer it puts the id of the card's project under
    ['text/plain'], so that [getData('text/plain')] reads that id back,
    leaves the data of every other format as it was and sets the allowed
    effect to "move".  A column's [dragover] then accepts the gesture
    exactly when the data store held no item of another format before:
    ['text/plain'] is put last, and the column looks at the first format
    only. *)
Theorem dragStartHandler_handshake (item : ProjectItem) (h : heap) (d : DataStore)
    (prj : Project) :
  objects h !! project item = Some prj →
  dragStartHandler item h None = None ∧
  ∃ d',
    dragStartHandler item h (Some d) = Some d' ∧
    getData "text/plain" d' = id prj ∧
    effectAllowed d' = "move" ∧
    (∀ format, format ≠ "text/plain" → getData format d' = getData format d) ∧
    (offers_plain_text (mkDragEvent (Some (transfer_of d')) false) = true
     ↔ ∀ it, it ∈ entries d → it.1 = "text/plain").
Proof.
  intros Hprj. split; [reflexivity|].
  unfold dragStartHandler. simpl. rewrite Hprj. simpl.
  eexists. split; [reflexivity|].
  split; [apply getData_setData|]. split; [reflexivity|].
  split; [intros format Hne; now apply getData_setData_ne|].
  unfold offers_plain_text. simpl.
  rewrite bool_decide_eq_true, map_app.
  destruct (filter (λ it, it.1 ≠ "text/plain") (entries d)) as [|it es] eqn:E.
  - split; [|reflexivity]. intros _ it Hit.
    apply dec_stable. exact (proj2 (filter_none _ _) E it Hit).
  - simpl. split.
    + intros H. injection H as H.
      assert (Hin : it ∈ filter (λ it, it.1 ≠ "text/plain") (entries d))
        by (rewrite E; apply list_elem_of_here).
      apply list_elem_of_filter in Hin as [Hne _]. contradiction.
    + intros Hall.
      assert (Hin : it ∈ filter (λ it, it.1 ≠ "text/plain") (entries d))
        by (rewrite E; apply list_elem_of_here).
      apply list_elem_of_filter in Hin as [Hne Hin]. destruct (Hne (Hall it Hin)).
Qed.

Lemma dragStartHandler_handshake_witness :
  objects board !! project (mkProjectItem 3 (mkLi "0.25" EmptyString EmptyString EmptyString)) = Some build_api ∧
  ∃ d',
    dragStartHandler (mkProjectItem 3 (mkLi "0.25" EmptyString EmptyString EmptyString)) board
                     (Some (mkDataStore [] "uninitialized")) = Some d' ∧
    getData "text/plain" d' = "0.25".
Proof.
  split; [reflexivity|].
  destruct (dragStartHandler_handshake (mkProjectItem 3 (mkLi "0.25" EmptyString EmptyString EmptyString)) board
              (mkDataStore [] "uninitialized") build_api eq_refl)
    as (_ & d' & Hrun & Hget & _).
  exists d'. split; [exact Hrun | exact Hget].
Defined.

(** ** What the columns show after a notification *)

Lemma notify_calls_spec (n ps : nat) (ls : list Listener) (h : heap) (items : list loc) :
  heap_ok h → n ≤ next h → ps < n → arrays h !! ps = Some items →
  Forall no_field_writes ls →
  map (λ c, c.1.1) (notify_calls ps ls h) = map fn_id ls ∧
  Forall (λ c, arrays c.1.2 !! c.2 = Some items ∧ quiet n h c.1.2)
         (notify_calls ps ls h).
Proof.
  revert h. induction ls as [|f ls IH]; intros h Hok Hn Hps Hitems Hno.
  - split; constructor.
  - apply Forall_cons in Hno as [Hf Hno]. simpl. rewrite Hitems.
    destruct (slice_frame n items h Hn Hok) as (Hf1 & Hok1 & Hq1).
    set (h1 := bump 1 (set_arrays <[next h := items]> h)) in *.
    assert (Hn1 : n ≤ next h1) by (simpl; lia).
    destruct (call_frame n (next h) f h1 Hn Hn1 Hok1) as (Hf2 & Hok2 & Hq2).
    specialize (Hq2 Hf).
    set (h2 := call f (next h) h1) in *.
    assert (Hn2 : n ≤ next h2) by (destruct Hf2 as (_&_&_&Hnx&_); lia).
    assert (Hitems2 : arrays h2 !! ps = Some items).
    { destruct Hf2 as (_&_&_&_&Ha2&_). rewrite (Ha2 ps Hps).
      destruct Hf1 as (_&_&_&_&Ha1&_). rewrite (Ha1 ps Hps). exact Hitems. }
    destruct (IH h2 Hok2 Hn2 Hps Hitems2 Hno) as (Hfns & Hcalls).
    split; [simpl; now rewrite Hfns|].
    constructor.
    + simpl. split; [apply lookup_insert_eq | exact Hq1].
    + eapply Forall_impl; [exact Hcalls|]. simpl. intros c [Hc Hq].
      split; [exact Hc|].
      eapply quiet_trans; [exact Hq1|]. eapply quiet_trans; [exact Hq2 | exact Hq].
Qed.

Lemma omap_ext_in {A B} (f g : A → option B) (l : list A) :
  (∀ x, x ∈ l → f x = g x) → omap f l = omap g l.
Proof.
  induction l as [|x l IH]; intros Hfg; [reflexivity|].
  assert (IH' : omap f l = omap g l).
  { apply IH. intros y Hy. apply Hfg. now apply list_elem_of_further. }
  simpl. rewrite (Hfg x (list_elem_of_here _ _)).
  destruct (g x); [f_equal|]; exact IH'.
Qed.

Lemma receive_ext (template : li) (col : ProjectList) (h hc : heap) (items : list loc) :
  (∀ r, r ∈ items → objects hc !! r = objects h !! r) →
  receive template col hc items = receive template col h items.
Proof.
  intros Hsame. unfold receive, renderProjects. simpl.
  assert (Hfilter : List.filter (relevant (type col) hc) items
                    = List.filter (relevant (type col) h) items).
  { apply List.filter_ext_in. intros r Hr. unfold relevant.
    now rewrite (Hsame r (proj2 (list_elem_of_In _ _) Hr)). }
  rewrite Hfilter. f_equal.
  apply omap_ext_in. intros r Hr. unfold new_ProjectItem.
  apply list_elem_of_In, List.filter_In in Hr as [Hr _].
  now rewrite (Hsame r (proj2 (list_elem_of_In _ _) Hr)).
Qed.

Lemma receive_again (template : li) (col : ProjectList) (h h0 : heap)
    (items items0 : list loc) :
  receive template (receive template col h0 items0) h items
  = receive template col h items.
Proof. reflexivity. Qed.

Lemma deliver_receive (template : li) (k : nat) (h : heap) (items : list loc)
    (calls : list (nat * heap * loc)) :
  Forall (λ c, arrays c.1.2 !! c.2 = Some items ∧
               ∀ r, r ∈ items → objects c.1.2 !! r = objects h !! r) calls →
  ∀ col,
    deliver template k col calls
    = if bool_decide (k ∈ map (λ c, c.1.1) calls)
      then receive template col h items else col.
Proof.
  unfold deliver.
  induction calls as [|[[f hc] a] calls IH]; intros Hall col; [reflexivity|].
  apply Forall_cons in Hall as [[Ha Hobj] Hall]. simpl in Ha, Hobj.
  simpl. rewrite (IH Hall). rewrite Ha. simpl.
  rewrite (receive_ext template col h hc items Hobj).
  destruct (decide (f = k)) as [->|Hne].
  - rewrite (bool_decide_eq_true_2 (k = k)) by reflexivity.
    rewrite (bool_decide_eq_true_2 (k ∈ k :: _)) by apply list_elem_of_here.
    destruct (bool_decide (k ∈ map (λ c, c.1.1) calls)); reflexivity.
  - rewrite (bool_decide_eq_false_2 (f = k)) by exact Hne.
    assert (bool_decide (k ∈ f :: map (λ c : nat * heap * nat, c.1.1) calls)
            = bool_decide (k ∈ map (λ c : nat * heap * nat, c.1.1) calls)) as ->;
      [|reflexivity].
    apply bool_decide_ext. rewrite elem_of_cons.
    split; [intros [Hk|Hk]; [congruence | exact Hk] | intros Hk; right; exact Hk].
Qed.

Lemma deliver_updateListeners (template : li) (k : nat) (col : ProjectList)
    (h : heap) (this : loc) (so : ProjectState) (items : list loc) (ls : list Listener) :
  heap_ok h → stores h !! this = Some so →
  arrays h !! projects so = Some items → fn_arrays h !! listeners so = Some ls →
  Forall (λ r, is_Some (objects h !! r)) items →
  Forall no_field_writes ls →
  deliver template k col (updateListeners_calls this h)
  = if bool_decide (k ∈ map fn_id ls) then receive template col h items else col.
Proof.
  intros Hok Hso Hitems Hls Hall Hno.
  unfold updateListeners_calls. rewrite Hso, Hls.
  assert (Hps : projects so < next h).
  { destruct Hok as (_ & Ha & _). apply Ha in Hitems. exact Hitems. }
  destruct (notify_calls_spec (next h) (projects so) ls h items Hok (Nat.le_refl _)
              Hps Hitems Hno) as (Hfns & Hcalls).
  rewrite <- Hfns. apply deliver_receive.
  eapply Forall_impl; [exact Hcalls|]. simpl. intros c [Hc Hq].
  split; [exact Hc|]. intros r Hr. apply Hq.
  exact (items_below_next h items Hok Hall r Hr).
Qed.

Lemma relevant_status (t : ListType) (h : heap) (r : loc) (prj : Project) :
  objects h !! r = Some prj →
  relevant t h r = bool_decide (status prj = status_of t).
Proof. intros H. unfold relevant. rewrite H. destruct t; reflexivity. Qed.

(** X8: the two filters split the projects: a reference to a project is
    kept by exactly one of the two column types, the one of its status;
    each filter keeps the order of the sequence, and together they keep as
    many references as the sequence has. *)
Theorem relevant_partition (h : heap) (items : list loc) :
  Forall (λ r, is_Some (objects h !! r)) items →
  (∀ r, r ∈ items → relevant active h r = negb (relevant finished h r)) ∧
  (∀ t r prj, objects h !! r = Some prj →
     (In r (List.filter (relevant t h) items) ↔ r ∈ items ∧ status prj = status_of t)) ∧
  sublist (List.filter (relevant active h) items) items ∧
  sublist (List.filter (relevant finished h) items) items ∧
  length (List.filter (relevant active h) items)
  + length (List.filter (relevant finished h) items) = length items.
Proof.
  intros Hall. split; [|split; [|split; [|split]]].
  - intros r Hr. rewrite Forall_forall in Hall. destruct (Hall r Hr) as [prj Hprj].
    rewrite !(relevant_status _ h r prj Hprj). simpl.
    destruct (status prj); reflexivity.
  - intros t r prj Hprj. rewrite List.filter_In, (relevant_status t h r prj Hprj).
    rewrite bool_decide_eq_true, <- list_elem_of_In. reflexivity.
  - clear Hall. induction items as [|r items IH]; simpl; [constructor|].
    destruct (relevant active h r); [now apply sublist_skip | now apply sublist_cons].
  - clear Hall. induction items as [|r items IH]; simpl; [constructor|].
    destruct (relevant finished h r); [now apply sublist_skip | now apply sublist_cons].
  - induction Hall as [|r items [prj Hprj] _ IH]; [reflexivity|].
    simpl. rewrite !(relevant_status _ h r prj Hprj). simpl.
    destruct (status prj); simpl; lia.
Qed.

Lemma relevant_partition_witness :
  Forall (λ r, is_Some (objects board !! r)) [3] ∧
  length (List.filter (relevant active board) [3])
  + length (List.filter (relevant finished board) [3]) = 1.
Proof.
  assert (H : Forall (λ r, is_Some (objects board !! r)) [3]).
  { constructor; [|constructor]. exists build_api. reflexivity. }
  split; [exact H|].
  exact (proj2 (proj2 (proj2 (proj2 (relevant_partition board [3] H))))).
Defined.

Lemma deliver_keeps (template : li) (k : nat) (col : ProjectList)
    (calls : list (nat * heap * loc)) :
  type (deliver template k col calls) = type col ∧
  classList (deliver template k col calls) = classList col.
Proof.
  unfold deliver. revert col.
  induction calls as [|[[f hc] a] calls IH]; intros col; [auto|].
  simpl. destruct (IH (if bool_decide (f = k)
                       then receive template col hc (default [] (arrays hc !! a))
                       else col)) as [Ht Hc].
  rewrite Ht, Hc. destruct (bool_decide (f = k)); auto.
Qed.

Lemma moveProject_columns (template : li) (k : nat) (col : ProjectList)
    (h : heap) (this : loc) (pid : string) (s : ProjectStatus)
    (so : ProjectState) (items : list loc) (ls : list Listener) :
  heap_ok h → stores h !! this = Some so →
  arrays h !! projects so = Some items → fn_arrays h !! listeners so = Some ls →
  Forall (λ r, is_Some (objects h !! r)) items →
  Forall no_field_writes ls → k ∈ map fn_id ls →
  ∃ h' tr,
    moveProject this pid s h = Some (h', tr) ∧
    let col' := deliver template k col (moveProject_calls this pid s h) in
    type col' = type col ∧ classList col' = classList col ∧
    assignedProjects col' = List.filter (relevant (type col) h') items ∧
    children col' = omap (new_ProjectItem template h') (assignedProjects col').
Proof.
  intros Hok Hso Harr Hfa Hall Hno Hk.
  destruct (moveProject_spec h this pid s so items ls Hok Hso Harr Hfa Hall)
    as (h' & tr & Hrun & _ & _ & _ & _ & _ & _ & _ & _ & _ & Hq).
  specialize (Hq Hno).
  exists h', tr. split; [exact Hrun|].
  pose proof (moveProject_assign_ok h items pid s Hok) as Hok1.
  destruct (moveProject_assign_shape h items pid s) as (Hs1 & Ha1 & Hf1 & _ & Hn1 & Hobj).
  assert (Hcalls : moveProject_calls this pid s h
                   = updateListeners_calls this (moveProject_assign h items pid s)).
  { unfold moveProject_calls. now rewrite Hso, Harr. }
  set (h1 := moveProject_assign h items pid s) in *.
  assert (Hall1 : Forall (λ r, is_Some (objects h1 !! r)) items).
  { eapply Forall_impl; [exact Hall|]. intros r [x Hx].
    destruct (find_project h items pid) as [r0|]; [|now rewrite Hobj; eauto].
    destruct Hobj as (p0 & _ & _ & _ & ->).
    destruct (decide (r0 = r)) as [->|Hne].
    - rewrite lookup_insert_eq. eauto.
    - rewrite lookup_insert_ne by exact Hne. eauto. }
  cbv zeta. rewrite Hcalls.
  rewrite (deliver_updateListeners template k col h1 this so items ls Hok1);
    try congruence; try assumption.
  rewrite bool_decide_eq_true_2 by exact Hk.
  rewrite <- (receive_ext template col h1 h' items).
  - unfold receive, renderProjects. simpl. auto.
  - intros r Hr. apply Hq. exact (items_below_next h items Hok Hall r Hr).
Qed.

(** X9: after a [moveProject] on a well-formed store whose listeners assign
    to no member of a project, a column whose listener is registered holds
    exactly the references of the store's sequence whose project has the
    column's status at the end of the call, in the order of the sequence,
    and one card for each, rendered from the project as it then is; its
    type and the class list of its [ul] are as before. *)
Theorem columns_after_moveProject (template : li) (k : nat) (col : ProjectList)
    (h : heap) (this : loc) (pid : string) (s : ProjectStatus)
    (items : list loc) (ls : list Listener) :
  heap_ok h → store_ok h this →
  store_items h this = Some items → store_listeners h this = Some ls →
  Forall no_field_writes ls → k ∈ map fn_id ls →
  ∃ h' tr,
    moveProject this pid s h = Some (h', tr) ∧
    let col' := deliver template k col (moveProject_calls this pid s h) in
    type col' = type col ∧ classList col' = classList col ∧
    assignedProjects col' = List.filter (relevant (type col) h') items ∧
    children col' = omap (new_ProjectItem template h') (assignedProjects col').
Proof.
  intros Hok Hsok Hitems Hls Hno Hk.
  destruct (store_ok_items h this items Hsok Hitems)
    as (so & ls' & Hso & Harr & Hfa & Hls' & Hall).
  rewrite Hls in Hls'. injection Hls' as <-.
  exact (moveProject_columns template k col h this pid s so items ls
           Hok Hso Harr Hfa Hall Hno Hk).
Qed.

Lemma columns_after_moveProject_witness :
  heap_ok board ∧ store_ok board 0 ∧
  Forall no_field_writes [column_listener 0; column_listener 1] ∧
  1 ∈ map fn_id [column_listener 0; column_listener 1] ∧
  ∃ h' tr,
    moveProject 0 "0.25" Finished board = Some (h', tr) ∧
    assignedProjects (deliver card_template 1 finishedPrjList
                        (moveProject_calls 0 "0.25" Finished board))
    = List.filter (relevant finished h') [3].
Proof.
  assert (Hno : Forall no_field_writes [column_listener 0; column_listener 1])
    by (repeat constructor).
  assert (Hk : 1 ∈ map fn_id [column_listener 0; column_listener 1])
    by (apply list_elem_of_further, list_elem_of_here).
  split; [exact heap_ok_board|]. split; [exact store_ok_board|].
  split; [exact Hno|]. split; [exact Hk|].
  destruct (columns_after_moveProject card_template 1 finishedPrjList board 0 "0.25"
              Finished [3] [column_listener 0; column_listener 1]
              heap_ok_board store_ok_board eq_refl eq_refl Hno Hk)
    as (h' & tr & Hrun & _ & _ & Hassigned & _).
  exists h', tr. split; [exact Hrun | exact Hassigned].
Defined.

Lemma addProject_columns (template : li) (k : nat) (col : ProjectList)
    (h : heap) (this : loc) (rnd : number) (t d : string) (n : number)
    (so : ProjectState) (items : list loc) (ls : list Listener) :
  heap_ok h → stores h !! this = Some so →
  arrays h !! projects so = Some items → fn_arrays h !! listeners so = Some ls →
  Forall (λ r, is_Some (objects h !! r)) items →
  Forall no_field_writes ls → k ∈ map fn_id ls →
  ∃ h' tr r,
    addProject this rnd t d n h = Some (h', tr) ∧
    store_items h' this = Some (items ++ [r]) ∧
    let col' := deliver template k col (addProject_calls this rnd t d n h) in
    type col' = type col ∧ classList col' = classList col ∧
    assignedProjects col'
    = List.filter (relevant (type col) h) items
      ++ (if bool_decide (type col = active) then [r] else []) ∧
    children col' = omap (new_ProjectItem template h') (assignedProjects col').
Proof.
  intros Hok Hso Harr Hfa Hall Hno Hk.
  destruct (addProject_spec h this rnd t d n so items ls Hok Hso Harr Hfa Hall)
    as (h1 & h' & tr & Heq & Hobj1 & Hst1 & Harr1 & Hrun & Hok' & Hsok' & Hst & Hfa'
        & _ & Harr' & _ & _ & _ & _ & Hq).
  destruct (Hq Hno) as [Hnew Hold].
  exists h', tr, (next h). split; [exact Hrun|].
  split; [unfold store_items; rewrite Hst, Hso; exact Harr'|].
  set (newp := mkProject (to_string rnd) t d n Active) in *.
  set (h2 := bump 1 (set_arrays <[projects so := items ++ [next h]]>
                       (set_objects <[next h := newp]> h))).
  assert (Hcalls : addProject_calls this rnd t d n h = updateListeners_calls this h2).
  { unfold addProject_calls. now rewrite Hso, Harr. }
  assert (Hps : projects so < next h).
  { destruct Hok as (_ & Ha & _). apply Ha in Harr. exact Harr. }
  assert (Hok2 : heap_ok h2).
  { destruct Hok as (Ho & Ha & Hf & Hs). repeat split; simpl.
    - eapply map_Forall_insert_lt; [| |exact Ho]; lia.
    - eapply map_Forall_insert_lt; [| |exact Ha]; lia.
    - eapply map_Forall_weaken_lt; [|exact Hf]. lia.
    - eapply map_Forall_weaken_lt; [|exact Hs]. lia. }
  assert (Hobj2 : ∀ r, r ∈ items ++ [next h] → objects h' !! r = objects h2 !! r).
  { intros r Hr. apply elem_of_app in Hr as [Hr|Hr].
    - pose proof (items_below_next h items Hok Hall r Hr) as Hlt.
      rewrite (Hold r Hlt). simpl. rewrite lookup_insert_ne by lia. reflexivity.
    - apply list_elem_of_singleton in Hr. subst r. rewrite Hnew. simpl.
      now rewrite lookup_insert_eq. }
  assert (Hall2 : Forall (λ r, is_Some (objects h2 !! r)) (items ++ [next h])).
  { apply Forall_forall. intros r Hr. rewrite <- (Hobj2 r Hr).
    destruct Hsok' as (so' & items' & ls' & Hso' & Hi' & _ & Hall').
    rewrite Hst, Hso in Hso'. injection Hso' as <-. rewrite Harr' in Hi'.
    injection Hi' as <-. rewrite Forall_forall in Hall'. exact (Hall' r Hr). }
  cbv zeta. rewrite Hcalls.
  rewrite (deliver_updateListeners template k col h2 this so (items ++ [next h]) ls Hok2);
    try assumption; try (simpl; apply lookup_insert_eq).
  rewrite bool_decide_eq_true_2 by exact Hk.
  rewrite <- (receive_ext template col h2 h' (items ++ [next h]) Hobj2).
  unfold receive, renderProjects. simpl.
  split; [reflexivity|]. split; [reflexivity|]. split; [|reflexivity].
  rewrite List.filter_app. f_equal.
  - apply List.filter_ext_in. intros r Hr. unfold relevant.
    apply list_elem_of_In in Hr.
    now rewrite (Hold r (items_below_next h items Hok Hall r Hr)).
  - simpl. unfold relevant. rewrite Hnew. simpl.
    destruct (type col); reflexivity.
Qed.

(** X10: after an [addProject] on a well-formed store whose listeners
    assign to no member of a project, a column whose listener is registered
    holds the references it would have held of the old sequence, followed,
    in an [active] column only, by the new project; it has one card for
    each, and its class list is as before. *)
Theorem columns_after_addProject (template : li) (k : nat) (col : ProjectList)
    (h : heap) (this : loc) (rnd : number) (t d : string) (n : number)
    (items : list loc) (ls : list Listener) :
  heap_ok h → store_ok h this →
  store_items h this = Some items → store_listeners h this = Some ls →
  Forall no_field_writes ls → k ∈ map fn_id ls →
  ∃ h' tr r,
    addProject this rnd t d n h = Some (h', tr) ∧
    store_items h' this = Some (items ++ [r]) ∧
    let col' := deliver template k col (addProject_calls this rnd t d n h) in
    type col' = type col ∧ classList col' = classList col ∧
    assignedProjects col'
    = List.filter (relevant (type col) h) items
      ++ (if bool_decide (type col = active) then [r] else []) ∧
    children col' = omap (new_ProjectItem template h') (assignedProjects col').
Proof.
  intros Hok Hsok Hitems Hls Hno Hk.
  destruct (store_ok_items h this items Hsok Hitems)
    as (so & ls' & Hso & Harr & Hfa & Hls' & Hall).
  rewrite Hls in Hls'. injection Hls' as <-.
  exact (addProject_columns template k col h this rnd t d n so items ls
           Hok Hso Harr Hfa Hall Hno Hk).
Qed.

Lemma columns_after_addProject_witness :
  heap_ok board ∧ store_ok board 0 ∧
  Forall no_field_writes [column_listener 0; column_listener 1] ∧
  0 ∈ map fn_id [column_listener 0; column_listener 1] ∧
  ∃ h' tr r,
    addProject 0 (Fin false 5 (-1)) "Docs" "Write the manual" (of_Z 2) board
      = Some (h', tr) ∧
    assignedProjects (deliver card_template 0 activePrjList
                        (addProject_calls 0 (Fin false 5 (-1)) "Docs" "Write the manual"
                                          (of_Z 2) board))
    = [3; r].
Proof.
  assert (Hno : Forall no_field_writes [column_listener 0; column_listener 1])
    by (repeat constructor).
  assert (Hk : 0 ∈ map fn_id [column_listener 0; column_listener 1])
    by apply list_elem_of_here.
  split; [exact heap_ok_board|]. split; [exact store_ok_board|].
  split; [exact Hno|]. split; [exact Hk|].
  destruct (columns_after_addProject card_template 0 activePrjList board 0
              (Fin false 5 (-1)) "Docs" "Write the manual" (of_Z 2) [3]
              [column_listener 0; column_listener 1]
              heap_ok_board store_ok_board eq_refl eq_refl Hno Hk)
    as (h' & tr & r & Hrun & _ & _ & _ & Hassigned & _).
  exists h', tr, r. split; [exact Hrun | exact Hassigned].
Defined.

(** ** A whole gesture: drag a card, drop it on a column *)

Lemma status_of_inj (t t' : ListType) : status_of t = status_of t' → t = t'.
Proof. destruct t, t'; simpl; congruence. Qed.

(** X11: the gesture end to end.  On a well-formed store whose listeners
    assign to no member of a project, take the card of a project whose id no
    other project of the store has.  [dragStartHandler] on the card followed
    by [dropHandler] on a column, with the data store it wrote, gives that
    project the status of the column and leaves the other projects and the
    sequence as they were; and after the notification of that call a
    registered column has the project among its assigned ones exactly when
    it is of the type of the column dropped on. *)
Theorem drop_moves_dragged_project (template : li) (item : ProjectItem)
    (target : ProjectList) (d : DataStore) (h : heap) (projectState : loc)
    (prj : Project) (items : list loc) (ls : list Listener) :
  heap_ok h → store_ok h projectState →
  store_items h projectState = Some items → store_listeners h projectState = Some ls →
  Forall no_field_writes ls →
  project item ∈ items → objects h !! project item = Some prj →
  (∀ r0 p0, r0 ∈ items → objects h !! r0 = Some p0 → id p0 = id prj →
            r0 = project item) →
  ∃ d' h' tr,
    dragStartHandler item h (Some d) = Some d' ∧
    dropHandler projectState target (Some d') h = Some (h', tr) ∧
    objects h' !! project item
      = Some (assign (SetStatus (status_of (type target))) prj) ∧
    (∀ r', r' ∈ items → r' ≠ project item → objects h' !! r' = objects h !! r') ∧
    store_items h' projectState = Some items ∧
    ∀ k col, k ∈ map fn_id ls →
      (In (project item)
          (assignedProjects
             (deliver template k col
                (moveProject_calls projectState (id prj) (status_of (type target)) h)))
       ↔ type col = type target).
Proof.
  intros Hok Hsok Hitems Hls Hno Hin Hprj Huniq.
  destruct (store_ok_items h projectState items Hsok Hitems)
    as (so & ls' & Hso & Harr & Hfa & Hls' & Hall).
  rewrite Hls in Hls'. injection Hls' as <-.
  set (s := status_of (type target)).
  destruct (moveProject_spec h projectState (id prj) s so items ls Hok Hso Harr Hfa Hall)
    as (h' & tr & Hrun & _ & _ & Hst & _ & _ & Harr' & _ & _ & _ & Hq).
  specialize (Hq Hno).
  assert (Hps : projects so < next h).
  { destruct Hok as (_ & Ha & _). apply Ha in Harr. exact Harr. }
  destruct (moveProject_assign_shape h items (id prj) s) as (_ & _ & _ & _ & _ & Hobj).
  rewrite (find_project_unique h items (project item) prj Hin Hprj Huniq) in Hobj.
  destruct Hobj as (p1 & _ & Hp1 & _ & Hobj).
  rewrite Hprj in Hp1. injection Hp1 as <-.
  assert (Hmoved : objects h' !! project item = Some (assign (SetStatus s) prj)).
  { rewrite Hq by exact (items_below_next h items Hok Hall _ Hin).
    rewrite Hobj. apply lookup_insert_eq. }
  exists (set_effectAllowed "move" (setData "text/plain" (id prj) d)), h', tr.
  split; [unfold dragStartHandler; simpl; now rewrite Hprj|].
  split.
  { unfold dropHandler. simpl. unfold set_effectAllowed.
    change (getData "text/plain" _) with
      (getData "text/plain" (setData "text/plain" (id prj) d)).
    rewrite getData_setData. exact Hrun. }
  split; [exact Hmoved|]. split.
  { intros r' Hr' Hne. rewrite Hq by exact (items_below_next h items Hok Hall r' Hr').
    rewrite Hobj. now rewrite lookup_insert_ne. }
  split; [unfold store_items; rewrite Hst, Hso; simpl; now rewrite Harr'|].
  intros k col Hk.
  destruct (moveProject_columns template k col h projectState (id prj) s so items ls
              Hok Hso Harr Hfa Hall Hno Hk)
    as (h'' & tr'' & Hrun' & _ & _ & Hassigned & _).
  rewrite Hrun in Hrun'. injection Hrun' as <- <-.
  rewrite Hassigned, List.filter_In, (relevant_status _ h' _ _ Hmoved).
  rewrite bool_decide_eq_true. simpl. split.
  - intros [_ Hs]. symmetry. now apply status_of_inj.
  - intros ->. split; [now apply list_elem_of_In | reflexivity].
Qed.

Lemma drop_moves_dragged_project_witness :
  heap_ok board ∧ store_ok board 0 ∧
  ∃ d' h' tr,
    dragStartHandler (mkProjectItem 3 (mkLi "0.25" EmptyString EmptyString EmptyString))
                     board (Some (mkDataStore [] "uninitialized")) = Some d' ∧
    dropHandler 0 finishedPrjList (Some d') board = Some (h', tr) ∧
    objects h' !! 3 = Some (assign (SetStatus Finished) build_api).
Proof.
  split; [exact heap_ok_board|]. split; [exact store_ok_board|].
  destruct (drop_moves_dragged_project card_template
              (mkProjectItem 3 (mkLi "0.25" EmptyString EmptyString EmptyString))
              finishedPrjList (mkDataStore [] "uninitialized") board 0 build_api [3]
              [column_listener 0; column_listener 1]
              heap_ok_board store_ok_board eq_refl eq_refl)
    as (d' & h' & tr & Hstart & Hdrop & Hmoved & _).
  - repeat constructor.
  - apply list_elem_of_here.
  - reflexivity.
  - intros r0 p0 Hr0 _ _. apply list_elem_of_singleton in Hr0. exact Hr0.
  - exists d', h', tr. auto.
Defined.

(** X12: nothing in a drop or in the notification that follows touches the
    class list of a column: the marker an accepted [dragover] has put on a
    column is still there after any calls of its listener, so after a drop
    it stays until a [dragleave] on that column. *)
Theorem drop_keeps_marker (template : li) (k : nat) (col : ProjectList)
    (event : DragEvent) (calls : list (nat * heap * loc)) :
  offers_plain_text event = true →
  "droppable" ∈ classList (deliver template k (dragOver event col).2 calls).
Proof.
  intros Hoffer. destruct (deliver_keeps template k (dragOver event col).2 calls) as [_ ->].
  unfold dragOver, dragOverHandler. rewrite Hoffer. simpl.
  apply classList_add_elem.
Qed.

Lemma drop_keeps_marker_witness :
  offers_plain_text (mkDragEvent (Some (mkDataTransfer ["text/plain"])) false) = true ∧
  "droppable" ∈ classList
    (deliver card_template 1
       (dragOver (mkDragEvent (Some (mkDataTransfer ["text/plain"])) false)
                 finishedPrjList).2
       (moveProject_calls 0 "0.25" Finished board)).
Proof.
  split; [reflexivity|].
  exact (drop_keeps_marker card_template 1 finishedPrjList
           (mkDragEvent (Some (mkDataTransfer ["text/plain"])) false)
           (moveProject_calls 0 "0.25" Finished board) eq_refl).
Defined.

Lemma getData_missing (format : string) (d : DataStore) :
  (∀ it, it ∈ entries d → it.1 ≠ format) → getData format d = EmptyString.
Proof.
  intros Hnone. unfold getData.
  destruct (List.find _ (entries d)) as [it|] eqn:E; [|reflexivity].
  apply find_some in E as [Hin Hf]. apply bool_decide_eq_true in Hf.
  destruct (Hnone it (proj2 (list_elem_of_In _ _) Hin) Hf).
Qed.

(** X13: a drop of an event without a data transfer fails; a drop whose
    data store has no ['text/plain'] item asks the store to move the project
    with the empty id, which, when no project of a well-formed store has
    the empty id, is a bare notification: nothing is written. *)
Theorem dropHandler_without_payload (col : ProjectList) (d : DataStore) (h : heap)
    (projectState : loc) (items : list loc) :
  store_ok h projectState → store_items h projectState = Some items →
  (∀ it, it ∈ entries d → it.1 ≠ "text/plain") →
  (∀ r prj, r ∈ items → objects h !! r = Some prj → id prj ≠ EmptyString) →
  dropHandler projectState col None h = None ∧
  dropHandler projectState col (Some d) h = updateListeners projectState h.
Proof.
  intros Hsok Hitems Hnone Hids. split; [reflexivity|].
  destruct (store_ok_items h projectState items Hsok Hitems)
    as (so & ls & Hso & Harr & _).
  unfold dropHandler. simpl. rewrite (getData_missing _ _ Hnone).
  rewrite (moveProject_unfold h projectState _ _ so items Hso Harr).
  unfold moveProject_assign.
  now rewrite (proj2 (find_project_None h items EmptyString) Hids).
Qed.

Lemma dropHandler_without_payload_witness :
  store_ok board 0 ∧
  dropHandler 0 finishedPrjList (Some (mkDataStore [("text/html", "x")] "all")) board
  = updateListeners 0 board.
Proof.
  split; [exact store_ok_board|].
  refine (proj2 (dropHandler_without_payload finishedPrjList
                   (mkDataStore [("text/html", "x")] "all") board 0 [3]
                   store_ok_board eq_refl _ _)).
  - intros it Hit. apply list_elem_of_singleton in Hit. subst it. discriminate.
  - intros r prj Hr Hprj. apply list_elem_of_singleton in Hr. subst r.
    injection Hprj as <-. discriminate.
Defined.

(** ** The form *)

Local Open Scope Z_scope.

Lemma of_nat_of_Z (n : nat) : of_nat n = of_Z (Z.of_nat n).
Proof.
  unfold of_nat, of_Z. f_equal.
  - symmetry. apply Z.ltb_ge. lia.
  - rewrite Z.abs_eq by lia. lia.
Qed.

Local Close Scope Z_scope.

Lemma number_ge_length (n m : nat) :
  number_ge (of_nat n) (of_Z (Z.of_nat m)) = (m <=? n).
Proof.
  rewrite of_nat_of_Z, number_ge_of_Z.
  destruct (Z.leb_spec (Z.of_nat m) (Z.of_nat n)), (Nat.leb_spec m n);
    try reflexivity; lia.
Qed.

Lemma number_ge_length_5 (n : nat) : number_ge (of_nat n) (of_Z 5) = (5 <=? n).
Proof. exact (number_ge_length n 5). Qed.

Lemma validate_number_text (x : number) (req : option bool)
    (minL maxL lo hi : option number) :
  UTF16.validate (UTF16.mkValidatable (UTF16.VNumber x) req minL maxL lo hi) =
    match lo with Some l => number_ge x l | None => true end &&
    match hi with Some u => number_le x u | None => true end.
Proof.
  destruct (trim_to_string x) as [_ Hlen].
  unfold UTF16.validate; simpl. rewrite <- units_trim, length_units.
  apply Nat.eqb_neq in Hlen. rewrite Hlen.
  destruct (truthy req), minL, maxL, lo, hi; simpl;
    rewrite ?andb_true_r; reflexivity.
Qed.

Lemma gatherInputs_eq (ToNumber : UTF16.text → number) (inp : ProjectInput) :
  gatherInputs ToNumber inp =
    if negb (forallb UTF16.is_WhiteSpace (titleElement inp)) &&
       negb (forallb UTF16.is_WhiteSpace (descriptionElement inp)) &&
       (5 <=? length (descriptionElement inp)) &&
       number_ge (ToNumber (peopleElement inp)) (of_Z 1) &&
       number_le (ToNumber (peopleElement inp)) (of_Z 5)
    then (Some (titleElement inp, descriptionElement inp,
                ToNumber (peopleElement inp)), [])
    else (None, ["please add valid inputs"]).
Proof.
  unfold gatherInputs. rewrite !validate_text, validate_number_text.
  rewrite number_ge_length_5.
  set (a := forallb UTF16.is_WhiteSpace (titleElement inp)).
  set (b := forallb UTF16.is_WhiteSpace (descriptionElement inp)).
  set (c := 5 <=? length (descriptionElement inp)).
  set (lo := number_ge (ToNumber (peopleElement inp)) (of_Z 1)).
  set (hi := number_le (ToNumber (peopleElement inp)) (of_Z 5)).
  destruct a, b, c, lo, hi; reflexivity.
Qed.

(** X14: whatever the text of the three fields, any sequences of 16-bit
    code units, and whatever the conversion from text to number,
    [gatherInputs] returns the triple exactly when the title has a code unit
    that is neither white space nor a line terminator of the language, the
    description has one too and is at least five code units long, and the
    converted people count is at least 1 and at most 5 (a NaN is neither);
    the triple is then the title and the description as typed, untrimmed,
    and the converted count, and no alert is shown; in every other case it
    returns nothing and shows one alert. *)
Theorem gatherInputs_accepts (ToNumber : UTF16.text → number) (inp : ProjectInput) :
  let accepted :=
    forallb UTF16.is_WhiteSpace (titleElement inp) = false ∧
    forallb UTF16.is_WhiteSpace (descriptionElement inp) = false ∧
    5 ≤ length (descriptionElement inp) ∧
    number_ge (ToNumber (peopleElement inp)) (of_Z 1) = true ∧
    number_le (ToNumber (peopleElement inp)) (of_Z 5) = true in
  (accepted →
   gatherInputs ToNumber inp
   = (Some (titleElement inp, descriptionElement inp, ToNumber (peopleElement inp)), [])) ∧
  (¬ accepted → gatherInputs ToNumber inp = (None, ["please add valid inputs"])) ∧
  (is_Some (gatherInputs ToNumber inp).1 ↔ accepted) ∧
  (ToNumber (peopleElement inp) = NaN → (gatherInputs ToNumber inp).1 = None).
Proof.
  cbv zeta. rewrite gatherInputs_eq.
  destruct (forallb UTF16.is_WhiteSpace (titleElement inp)),
           (forallb UTF16.is_WhiteSpace (descriptionElement inp)),
           (Nat.leb_spec 5 (length (descriptionElement inp))),
           (number_ge (ToNumber (peopleElement inp)) (of_Z 1)) eqn:Hlo,
           (number_le (ToNumber (peopleElement inp)) (of_Z 5)) eqn:Hhi; simpl;
    (split; [|split; [|split]]);
    try (intros (? & ? & ? & ? & ?); (discriminate || lia));
    try (intros Hn; exfalso; apply Hn; repeat split; (reflexivity || assumption));
    try reflexivity;
    try (split; [intros [? Hx]; discriminate Hx
                | intros (? & ? & ? & ? & ?); (discriminate || lia)]);
    try (split; [intros _; repeat split; (reflexivity || assumption)
                | intros _; eexists; reflexivity]);
    try (intros Hnan; rewrite Hnan in Hlo; discriminate Hlo).
Qed.

Lemma gatherInputs_accepts_witness :
  (forallb UTF16.is_WhiteSpace [0x65E5; 0x7A0B]%N = false ∧
   forallb UTF16.is_WhiteSpace (units "Write the manual") = false ∧
   5 ≤ length (units "Write the manual") ∧
   number_ge (of_Z 2) (of_Z 1) = true ∧ number_le (of_Z 2) (of_Z 5) = true) ∧
  gatherInputs (λ _, of_Z 2)
    (mkProjectInput [0x65E5; 0x7A0B]%N (units "Write the manual") (units "2"))
  = (Some ([0x65E5; 0x7A0B]%N, units "Write the manual", of_Z 2), []).
Proof.
  assert (H : forallb UTF16.is_WhiteSpace [0x65E5; 0x7A0B]%N = false ∧
              forallb UTF16.is_WhiteSpace (units "Write the manual") = false ∧
              5 ≤ length (units "Write the manual") ∧
              number_ge (of_Z 2) (of_Z 1) = true ∧ number_le (of_Z 2) (of_Z 5) = true).
  { repeat split; try reflexivity. simpl. lia. }
  split; [exact H|].
  exact (proj1 (gatherInputs_accepts (λ _, of_Z 2)
                  (mkProjectInput [0x65E5; 0x7A0B]%N (units "Write the manual")
                                  (units "2"))) H).
Defined.

(** X15: when a field does not pass its gate (a title or a description
    all of whose code units are white space or line terminators of the
    language, a description of fewer than five code units, a people count
    below 1 or above 5, or one that does not read as a number),
    [submitHandler] prevents the default of the event, shows one alert and
    does nothing else: it makes no call to the store and the fields keep
    what was typed.  These are all the cases in which it does so. *)
Theorem submitHandler_rejects (ToNumber : UTF16.text → number) (inp : ProjectInput) :
  forallb UTF16.is_WhiteSpace (titleElement inp) = true ∨
  forallb UTF16.is_WhiteSpace (descriptionElement inp) = true ∨
  length (descriptionElement inp) < 5 ∨
  number_ge (ToNumber (peopleElement inp)) (of_Z 1) = false ∨
  number_le (ToNumber (peopleElement inp)) (of_Z 5) = false ∨
  ToNumber (peopleElement inp) = NaN
  ↔ submitHandler ToNumber inp = mkSubmitted inp [] ["please add valid inputs"] true.
Proof.
  unfold submitHandler. rewrite gatherInputs_eq.
  destruct (forallb UTF16.is_WhiteSpace (titleElement inp)) eqn:Ht,
           (forallb UTF16.is_WhiteSpace (descriptionElement inp)) eqn:Hd,
           (Nat.leb_spec 5 (length (descriptionElement inp))) as [Hlen|Hlen],
           (number_ge (ToNumber (peopleElement inp)) (of_Z 1)) eqn:Hlo,
           (number_le (ToNumber (peopleElement inp)) (of_Z 5)) eqn:Hhi;
    cbn [negb andb];
    (split; [intros Hbad | intros Hres]);
    try reflexivity; try discriminate Hres; try (auto 8; fail).
  destruct Hbad as [H|[H|[H|[H|[H|H]]]]]; try discriminate H; try lia.
  rewrite H in Hlo. discriminate Hlo.
Qed.

Lemma submitHandler_rejects_witness :
  forallb UTF16.is_WhiteSpace [0x3000; 0x2003]%N = true ∧
  submitHandler (λ _, of_Z 2)
                (mkProjectInput [0x3000; 0x2003]%N (units "Write the manual") (units "2"))
  = mkSubmitted
      (mkProjectInput [0x3000; 0x2003]%N (units "Write the manual") (units "2"))
      [] ["please add valid inputs"] true.
Proof.
  split; [reflexivity|].
  apply (submitHandler_rejects (λ _, of_Z 2)
           (mkProjectInput [0x3000; 0x2003]%N (units "Write the manual") (units "2"))).
  left. reflexivity.
Defined.



(** ** How moves compose *)

Lemma moveProject_after (h : heap) (this : loc) (pid : string) (s : ProjectStatus)
    (so : ProjectState) (items : list loc) (ls : list Listener) :
  heap_ok h → stores h !! this = Some so →
  arrays h !! projects so = Some items → fn_arrays h !! listeners so = Some ls →
  Forall (λ r, is_Some (objects h !! r)) items →
  Forall no_field_writes ls →
  ∃ h' tr,
    moveProject this pid s h = Some (h', tr) ∧
    heap_ok h' ∧ stores h' !! this = Some so ∧
    arrays h' !! projects so = Some items ∧ fn_arrays h' !! listeners so = Some ls ∧
    Forall (λ r, is_Some (objects h' !! r)) items ∧
    map event_fn tr = map fn_id ls ∧
    (∀ r, r ∈ items →
       objects h' !! r = objects (moveProject_assign h items pid s) !! r).
Proof.
  intros Hok Hso Harr Hfa Hall Hno.
  destruct (moveProject_spec h this pid s so items ls Hok Hso Harr Hfa Hall)
    as (h' & tr & Hrun & Hok' & Hsok' & Hst & Hfa' & _ & Harr' & Hfns & _ & _ & Hq).
  specialize (Hq Hno).
  assert (Hps : projects so < next h).
  { destruct Hok as (_ & Ha & _). apply Ha in Harr. exact Harr. }
  assert (Harr2 : arrays h' !! projects so = Some items) by now rewrite Harr'.
  exists h', tr. split; [exact Hrun|]. split; [exact Hok'|].
  split; [now rewrite Hst|]. split; [exact Harr2|]. split; [now rewrite Hfa'|].
  split; [|split; [exact Hfns|]].
  - destruct Hsok' as (so' & items' & ls' & Hso' & Hi' & _ & Hall').
    rewrite Hst, Hso in Hso'. injection Hso' as <-.
    rewrite Harr2 in Hi'. now injection Hi' as <-.
  - intros r Hr. apply Hq. exact (items_below_next h items Hok Hall r Hr).
Qed.

Lemma store_projects_lookup (h h' : heap) (this : loc) (so : ProjectState)
    (items : list loc) :
  stores h !! this = Some so → arrays h !! projects so = Some items →
  stores h' !! this = Some so → arrays h' !! projects so = Some items →
  (∀ r, r ∈ items → objects h' !! r = objects h !! r) →
  store_projects h' this = store_projects h this.
Proof.
  intros Hso Harr Hso' Harr' Hsame.
  apply (store_projects_ext h h' this items); try assumption;
    unfold store_items; [rewrite Hso | rewrite Hso']; assumption.
Qed.

(** X17: moving to the same status a second time writes nothing: on a
    well-formed store whose listeners assign to no member of a project, the
    second [moveProject] with the same arguments is a bare notification; it
    calls every listener once more and leaves the projects of the store as
    the first call left them. *)
Theorem moveProject_twice (h : heap) (this : loc) (pid : string) (s : ProjectStatus)
    (items : list loc) (ls : list Listener) :
  heap_ok h → store_ok h this →
  store_items h this = Some items → store_listeners h this = Some ls →
  Forall no_field_writes ls →
  ∃ h1 tr1 h2 tr2,
    moveProject this pid s h = Some (h1, tr1) ∧
    moveProject this pid s h1 = updateListeners this h1 ∧
    moveProject this pid s h1 = Some (h2, tr2) ∧
    map event_fn tr2 = map fn_id ls ∧
    store_items h2 this = Some items ∧
    store_projects h2 this = store_projects h1 this.
Proof.
  intros Hok Hsok Hitems Hls Hno.
  destruct (store_ok_items h this items Hsok Hitems)
    as (so & ls' & Hso & Harr & Hfa & Hls' & Hall).
  rewrite Hls in Hls'. injection Hls' as <-.
  destruct (moveProject_after h this pid s so items ls Hok Hso Harr Hfa Hall Hno)
    as (h1 & tr1 & Hrun1 & Hok1 & Hso1 & Harr1 & Hfa1 & Hall1 & _ & Hobj1).
  destruct (moveProject_after h1 this pid s so items ls Hok1 Hso1 Harr1 Hfa1 Hall1 Hno)
    as (h2 & tr2 & Hrun2 & Hok2 & Hso2 & Harr2 & Hfa2 & Hall2 & Hfns2 & Hobj2).
  assert (Hsame : moveProject_assign h1 items pid s = h1).
  { destruct (moveProject_assign_shape h items pid s) as (_ & _ & _ & _ & _ & Hshape).
    assert (Hids : ∀ r0, r0 ∈ items →
                     id <$> objects h1 !! r0 = id <$> objects h !! r0).
    { intros r0 Hr0. rewrite (Hobj1 r0 Hr0).
      destruct (find_project h items pid) as [r|]; [|now rewrite Hshape].
      destruct Hshape as (p0 & _ & Hp0 & _ & ->).
      destruct (decide (r = r0)) as [<-|Hne].
      - rewrite lookup_insert_eq, Hp0. reflexivity.
      - now rewrite lookup_insert_ne. }
    unfold moveProject_assign at 1.
    rewrite (find_project_ext h h1 items pid Hids).
    destruct (find_project h items pid) as [r|] eqn:Hfind; [|reflexivity].
    destruct Hshape as (p0 & Hin & Hp0 & _ & Hshape).
    rewrite (Hobj1 r Hin), Hshape, lookup_insert_eq.
    rewrite bool_decide_eq_false_2; [reflexivity|].
    intros Hne. apply Hne. reflexivity. }
  exists h1, tr1, h2, tr2. split; [exact Hrun1|].
  split; [rewrite (moveProject_unfold h1 this pid s so items Hso1 Harr1);
          now rewrite Hsame|].
  split; [exact Hrun2|]. split; [exact Hfns2|].
  split; [unfold store_items; rewrite Hso2; exact Harr2|].
  apply (store_projects_lookup h1 h2 this so items Hso1 Harr1 Hso2 Harr2).
  intros r Hr. rewrite (Hobj2 r Hr). now rewrite Hsame.
Qed.

Lemma moveProject_twice_witness :
  heap_ok board ∧ store_ok board 0 ∧
  Forall no_field_writes [column_listener 0; column_listener 1] ∧
  ∃ h1 tr1,
    moveProject 0 "0.25" Finished board = Some (h1, tr1) ∧
    moveProject 0 "0.25" Finished h1 = updateListeners 0 h1.
Proof.
  assert (Hno : Forall no_field_writes [column_listener 0; column_listener 1])
    by (repeat constructor).
  split; [exact heap_ok_board|]. split; [exact store_ok_board|]. split; [exact Hno|].
  destruct (moveProject_twice board 0 "0.25" Finished [3]
              [column_listener 0; column_listener 1]
              heap_ok_board store_ok_board eq_refl eq_refl Hno)
    as (h1 & tr1 & h2 & tr2 & Hrun1 & Heq & _).
  exists h1, tr1. split; [exact Hrun1 | exact Heq].
Defined.

(** X18: moving a project away and back restores the store: on a
    well-formed store whose listeners assign to no member of a project,
    [moveProject] to any status followed by [moveProject] of the same id to
    the status the project found had before leaves the sequence and every
    project of the store as they were at the start. *)
Theorem moveProject_round_trip (h : heap) (this : loc) (pid : string)
    (s : ProjectStatus) (r : loc) (prj : Project)
    (items : list loc) (ls : list Listener) :
  heap_ok h → store_ok h this →
  store_items h this = Some items → store_listeners h this = Some ls →
  Forall no_field_writes ls →
  find_project h items pid = Some r → objects h !! r = Some prj →
  ∃ h1 tr1 h2 tr2,
    moveProject this pid s h = Some (h1, tr1) ∧
    objects h1 !! r = Some (assign (SetStatus s) prj) ∧
    moveProject this pid (status prj) h1 = Some (h2, tr2) ∧
    store_items h2 this = Some items ∧
    store_projects h2 this = store_projects h this.
Proof.
  intros Hok Hsok Hitems Hls Hno Hfind Hprj.
  destruct (store_ok_items h this items Hsok Hitems)
    as (so & ls' & Hso & Harr & Hfa & Hls' & Hall).
  rewrite Hls in Hls'. injection Hls' as <-.
  destruct (moveProject_after h this pid s so items ls Hok Hso Harr Hfa Hall Hno)
    as (h1 & tr1 & Hrun1 & Hok1 & Hso1 & Harr1 & Hfa1 & Hall1 & _ & Hobj1).
  destruct (moveProject_after h1 this pid (status prj) so items ls
              Hok1 Hso1 Harr1 Hfa1 Hall1 Hno)
    as (h2 & tr2 & Hrun2 & Hok2 & Hso2 & Harr2 & Hfa2 & Hall2 & _ & Hobj2).
  destruct (moveProject_assign_shape h items pid s) as (_ & _ & _ & _ & _ & Hshape).
  rewrite Hfind in Hshape. destruct Hshape as (p0 & Hin & Hp0 & Hid & Hshape).
  rewrite Hprj in Hp0. injection Hp0 as <-.
  assert (Hr1 : objects h1 !! r = Some (assign (SetStatus s) prj)).
  { rewrite (Hobj1 r Hin), Hshape. apply lookup_insert_eq. }
  assert (Hids : ∀ r0, r0 ∈ items →
                   id <$> objects h1 !! r0 = id <$> objects h !! r0).
  { intros r0 Hr0. rewrite (Hobj1 r0 Hr0), Hshape.
    destruct (decide (r = r0)) as [<-|Hne].
    - rewrite lookup_insert_eq, Hprj. reflexivity.
    - now rewrite lookup_insert_ne. }
  destruct (moveProject_assign_shape h1 items pid (status prj))
    as (_ & _ & _ & _ & _ & Hshape2).
  rewrite (find_project_ext h h1 items pid Hids), Hfind in Hshape2.
  destruct Hshape2 as (p1 & _ & Hp1 & _ & Hshape2).
  rewrite Hr1 in Hp1. injection Hp1 as <-.
  exists h1, tr1, h2, tr2. split; [exact Hrun1|]. split; [exact Hr1|].
  split; [exact Hrun2|].
  split; [unfold store_items; rewrite Hso2; exact Harr2|].
  apply (store_projects_lookup h h2 this so items Hso Harr Hso2 Harr2).
  intros r0 Hr0. rewrite (Hobj2 r0 Hr0), Hshape2.
  destruct (decide (r = r0)) as [<-|Hne].
  - rewrite lookup_insert_eq, Hprj. f_equal. destruct prj; reflexivity.
  - rewrite lookup_insert_ne by exact Hne. rewrite (Hobj1 r0 Hr0), Hshape.
    now rewrite lookup_insert_ne.
Qed.

Lemma moveProject_round_trip_witness :
  heap_ok board ∧ store_ok board 0 ∧
  find_project board [3] "0.25" = Some 3 ∧
  ∃ h1 tr1 h2 tr2,
    moveProject 0 "0.25" Finished board = Some (h1, tr1) ∧
    moveProject 0 "0.25" Active h1 = Some (h2, tr2) ∧
    store_projects h2 0 = Some [build_api].
Proof.
  split; [exact heap_ok_board|]. split; [exact store_ok_board|].
  split; [reflexivity|].
  destruct (moveProject_round_trip board 0 "0.25" Finished 3 build_api [3]
              [column_listener 0; column_listener 1]
              heap_ok_board store_ok_board eq_refl eq_refl)
    as (h1 & tr1 & h2 & tr2 & Hrun1 & _ & Hrun2 & _ & Hprojects).
  - repeat constructor.
  - reflexivity.
  - reflexivity.
  - exists h1, tr1, h2, tr2. split; [exact Hrun1|]. split; [exact Hrun2|].
    rewrite Hprojects. reflexivity.
Defined.

(** ** Nothing is ever taken out of a store *)

Lemma step_grows (h h' : heap) (this : loc) (items : list loc) (ls : list Listener) :
  step h h' → heap_ok h → instance h = None →
  store_items h this = Some items → store_listeners h this = Some ls →
  ∃ more_items more_ls,
    store_items h' this = Some (items ++ more_items) ∧
    store_listeners h' this = Some (ls ++ more_ls).
Proof.
  intros Hstep Hok Hnone Hitems Hls.
  unfold store_items, store_listeners in *.
  destruct (stores h !! this) as [so|] eqn:Hso; [|discriminate Hitems].
  simpl in Hitems, Hls.
  assert (Hps : projects so < next h).
  { destruct Hok as (_ & Ha & _). apply Ha in Hitems. exact Hitems. }
  assert (Hpl : listeners so < next h).
  { destruct Hok as (_ & _ & Hf & _). apply Hf in Hls. exact Hls. }
  destruct Hstep as [h|h this0 f h' H|h this0 rnd t d n h' tr H|h this0 pid s h' tr H].
  - exists [], []. rewrite !app_nil_r.
    unfold getInstance. rewrite Hnone. simpl.
    assert (Hne : next h ≠ this).
    { intros <-. destruct (heap_ok_fresh h Hok) as (_ & _ & _ & Hf). congruence. }
    rewrite lookup_insert_ne by exact Hne. rewrite Hso. simpl.
    rewrite !lookup_insert_ne by lia. auto.
  - unfold addListener in H.
    destruct (stores h !! this0) as [so0|]; [|discriminate H]. simpl in H.
    destruct (fn_arrays h !! listeners so0) as [ls0|] eqn:Hls0; [|discriminate H].
    simpl in H. injection H as <-. simpl. rewrite Hso. simpl.
    exists []. rewrite app_nil_r.
    destruct (decide (listeners so0 = listeners so)) as [He|Hne].
    + rewrite He in *. rewrite lookup_insert_eq. exists [f].
      rewrite Hls in Hls0. injection Hls0 as <-. auto.
    + rewrite lookup_insert_ne by exact Hne. exists []. rewrite app_nil_r. auto.
  - unfold addProject in H.
    destruct (stores h !! this0) as [so0|]; [|discriminate H]. simpl in H.
    destruct (arrays h !! projects so0) as [items0|] eqn:Hitems0; [|discriminate H].
    simpl in H. set (h1 := bump 1 _) in H.
    assert (Hok1 : heap_ok h1).
    { destruct Hok as (Ho & Ha & Hf & Hs). repeat split; simpl.
      - eapply map_Forall_insert_lt; [| |exact Ho]; lia.
      - eapply map_Forall_insert_lt; [| |exact Ha]; [|lia].
        apply Ha in Hitems0. simpl in Hitems0. lia.
      - eapply map_Forall_weaken_lt; [|exact Hf]. lia.
      - eapply map_Forall_weaken_lt; [|exact Hs]. lia. }
    destruct (updateListeners_partial _ _ _ _ H Hok1) as (_ & Hst & Hfa & _ & _ & Harr & _).
    rewrite Hst, Hfa. simpl. rewrite Hso. simpl.
    rewrite Harr by (simpl; lia). simpl.
    exists (if decide (projects so0 = projects so) then [next h] else []), [].
    rewrite app_nil_r. split; [|exact Hls].
    destruct (decide (projects so0 = projects so)) as [He|Hne].
    + rewrite He in *. rewrite lookup_insert_eq. congruence.
    + rewrite lookup_insert_ne by exact Hne. now rewrite app_nil_r.
  - unfold moveProject in H.
    destruct (stores h !! this0) as [so0|]; [|discriminate H]. simpl in H.
    destruct (arrays h !! projects so0) as [items0|] eqn:Hitems0; [|discriminate H].
    simpl in H.
    pose proof (moveProject_assign_ok h items0 pid s Hok) as Hok1.
    destruct (moveProject_assign_shape h items0 pid s) as (Hs1 & Ha1 & Hf1 & _ & Hn1 & _).
    destruct (updateListeners_partial _ _ _ _ H Hok1) as (_ & Hst & Hfa & _ & _ & Harr & _).
    exists [], []. rewrite !app_nil_r.
    rewrite Hst, Hfa, Hs1, Hf1, Hso. simpl.
    rewrite Harr by lia. rewrite Ha1. auto.
Qed.

Lemma steps_grow (h h' : heap) (this : loc) :
  rtc step h h' → heap_ok h → instance h = None →
  ∀ items ls,
    store_items h this = Some items → store_listeners h this = Some ls →
    ∃ more_items more_ls,
      store_items h' this = Some (items ++ more_items) ∧
      store_listeners h' this = Some (ls ++ more_ls).
Proof.
  induction 1 as [h|h hm h' Hstep _ IH]; intros Hok Hnone items ls Hitems Hls.
  - exists [], []. now rewrite !app_nil_r.
  - destruct (step_grows _ _ this items ls Hstep Hok Hnone Hitems Hls)
      as (mi & ml & Hi & Hl).
    destruct (step_preserves _ _ Hstep Hok Hnone) as (Hok1 & Hn1 & _).
    destruct (IH Hok1 Hn1 _ _ Hi Hl) as (mi' & ml' & Hi' & Hl').
    exists (mi ++ mi'), (ml ++ ml'). now rewrite !app_assoc.
Qed.

(** X19: nothing is ever taken out of a store.  From any heap a program
    has reached, whatever operations run next, on this store or on another,
    with whatever listeners, a store that had a sequence of projects and a
    list of listeners still has them, in the same order, as the beginning
    of its sequence and of its list. *)
Theorem store_only_grows (h h' : heap) (this : loc) (items : list loc)
    (ls : list Listener) :
  reachable h → rtc step h h' →
  store_items h this = Some items → store_listeners h this = Some ls →
  ∃ more_items more_ls,
    store_items h' this = Some (items ++ more_items) ∧
    store_listeners h' this = Some (ls ++ more_ls).
Proof.
  intros Hreach Hsteps Hitems Hls.
  destruct (reachable_ok h Hreach) as (Hok & Hnone & _).
  exact (steps_grow h h' this Hsteps Hok Hnone items ls Hitems Hls).
Qed.

Lemma store_only_grows_witness :
  reachable started ∧ rtc step started board ∧
  ∃ more_items more_ls,
    store_items board 0 = Some ([] ++ more_items) ∧
    store_listeners board 0
    = Some ([column_listener 0; column_listener 1] ++ more_ls).
Proof.
  assert (Hreach : reachable started).
  { unfold reachable.
    eapply rtc_l; [apply step_getInstance|].
    eapply rtc_l; [apply (step_addListener _ 0 (column_listener 0)); reflexivity|].
    eapply rtc_l; [apply (step_addListener _ 0 (column_listener 1)); reflexivity|].
    vm_compute. apply rtc_refl. }
  assert (Hsteps : rtc step started board).
  { apply rtc_once.
    apply (step_addProject _ 0 (Fin false 25 (-2)) "Build API"
             "Implement REST endpoints" (of_Z 3) board
             [Notified 0 4 [3]; Notified 1 5 [3]]).
    exact board_reached. }
  split; [exact Hreach|]. split; [exact Hsteps|].
  exact (store_only_grows started board 0 [] [column_listener 0; column_listener 1]
           Hreach Hsteps eq_refl eq_refl).
Defined.

(** X20: what every heap of a run satisfies: the static slot is empty, all
    allocated locations are below the allocation counter, and every store
    has its two arrays, with every reference in its sequence pointing to a
    project; so every operation on a store of the heap returns. *)
Theorem reachable_invariant (h : heap) :
  reachable h →
  instance h = None ∧ heap_ok h ∧ stores_ok h ∧
  ∀ this, is_Some (stores h !! this) →
    (∀ f, is_Some (addListener this f h)) ∧
    (∀ rnd t d n, is_Some (addProject this rnd t d n h)) ∧
    (∀ pid s, is_Some (moveProject this pid s h)) ∧
    is_Some (updateListeners this h).
Proof.
  intros Hreach. destruct (reachable_ok h Hreach) as (Hok & Hnone & Hsok).
  split; [exact Hnone|]. split; [exact Hok|]. split; [exact Hsok|].
  intros this Hthis. destruct (Hsok this Hthis) as (so & items & ls & Hso & Harr & Hfa & Hall).
  split; [|split; [|split]].
  - intros f. destruct (addListener_spec h this f so items ls Hok Hso Harr Hfa Hall)
      as (Hrun & _). rewrite Hrun. eauto.
  - intros rnd t d n.
    destruct (addProject_spec h this rnd t d n so items ls Hok Hso Harr Hfa Hall)
      as (_ & h' & tr & _ & _ & _ & _ & Hrun & _). rewrite Hrun. eauto.
  - intros pid s.
    destruct (moveProject_spec h this pid s so items ls Hok Hso Harr Hfa Hall)
      as (h' & tr & Hrun & _). rewrite Hrun. eauto.
  - destruct (updateListeners_spec h this so items ls Hok Hso Harr Hfa)
      as (h' & tr & Hrun & _). rewrite Hrun. eauto.
Qed.

Lemma reachable_invariant_witness :
  reachable board ∧ instance board = None ∧
  is_Some (moveProject 0 "0.25" Finished board).
Proof.
  split; [exact reachable_board|].
  destruct (reachable_invariant board reachable_board) as (Hnone & _ & _ & Hops).
  split; [exact Hnone|].
  destruct (Hops 0) as (_ & _ & Hmove & _); [now eexists|].
  exact (Hmove "0.25" Finished).
Defined.

(** ** Identifiers are not checked *)

Lemma find_project_app (h : heap) (items more : list loc) (pid : string) (r : loc) :
  find_project h items pid = Some r → find_project h (items ++ more) pid = Some r.
Proof.
  unfold find_project. induction items as [|r0 items IH]; simpl; [discriminate|].
  destruct (match objects h !! r0 with Some _ => _ | None => _ end); auto.
Qed.

(** X21: [addProject] does not compare the new id with those in the store.
    When [Math.random()] prints as the id of a project the store already
    holds, the new project gets that same id; [moveProject] with that id
    keeps finding the earlier project, so on a store whose listeners assign
    to no member of a project no [moveProject] ever changes the new one. *)
Theorem addProject_same_id (h : heap) (this : loc) (rnd : number) (t d : string)
    (n : number) (r0 : loc) (items : list loc) (ls : list Listener) :
  heap_ok h → store_ok h this →
  store_items h this = Some items → store_listeners h this = Some ls →
  Forall no_field_writes ls →
  find_project h items (to_string rnd) = Some r0 →
  ∃ h1 tr1 r,
    addProject this rnd t d n h = Some (h1, tr1) ∧
    store_items h1 this = Some (items ++ [r]) ∧ r ≠ r0 ∧
    objects h1 !! r = Some (mkProject (to_string rnd) t d n Active) ∧
    find_project h1 (items ++ [r]) (to_string rnd) = Some r0 ∧
    ∀ s, ∃ h2 tr2,
      moveProject this (to_string rnd) s h1 = Some (h2, tr2) ∧
      objects h2 !! r = Some (mkProject (to_string rnd) t d n Active).
Proof.
  intros Hok Hsok Hitems Hls Hno Hfind.
  destruct (store_ok_items h this items Hsok Hitems)
    as (so & ls' & Hso & Harr & Hfa & Hls' & Hall).
  rewrite Hls in Hls'. injection Hls' as <-.
  destruct (addProject_spec h this rnd t d n so items ls Hok Hso Harr Hfa Hall)
    as (_ & h1 & tr1 & _ & _ & _ & _ & Hrun & Hok1 & Hsok1 & Hst & Hfa1 & _ & Harr1
        & _ & _ & _ & _ & Hq).
  destruct (Hq Hno) as [Hnew Hold].
  assert (Hso1 : stores h1 !! this = Some so) by now rewrite Hst.
  assert (Hfl1 : fn_arrays h1 !! listeners so = Some ls) by now rewrite Hfa1.
  assert (Hall1 : Forall (λ r, is_Some (objects h1 !! r)) (items ++ [next h])).
  { destruct Hsok1 as (so' & items' & ls' & Hso' & Hi' & _ & Hall').
    rewrite Hso1 in Hso'. injection Hso' as <-. rewrite Harr1 in Hi'.
    now injection Hi' as <-. }
  destruct (find_project_Some h items _ r0 Hfind) as (Hin0 & p0 & Hp0 & Hid0).
  pose proof (items_below_next h items Hok Hall r0 Hin0) as Hlt0.
  assert (Hfind1 : find_project h1 (items ++ [next h]) (to_string rnd) = Some r0).
  { apply find_project_app.
    rewrite (find_project_ext h h1 items (to_string rnd)); [exact Hfind|].
    intros r Hr. now rewrite (Hold r (items_below_next h items Hok Hall r Hr)). }
  exists h1, tr1, (next h). split; [exact Hrun|].
  split; [unfold store_items; rewrite Hso1; exact Harr1|].
  split; [lia|]. split; [exact Hnew|]. split; [exact Hfind1|].
  intros s.
  destruct (moveProject_after h1 this (to_string rnd) s so (items ++ [next h]) ls
              Hok1 Hso1 Harr1 Hfl1 Hall1 Hno)
    as (h2 & tr2 & Hrun2 & _ & _ & _ & _ & _ & _ & Hobj2).
  exists h2, tr2. split; [exact Hrun2|].
  rewrite Hobj2 by (apply elem_of_app; right; apply list_elem_of_here).
  destruct (moveProject_assign_shape h1 (items ++ [next h]) (to_string rnd) s)
    as (_ & _ & _ & _ & _ & Hshape).
  rewrite Hfind1 in Hshape. destruct Hshape as (p1 & _ & _ & _ & ->).
  rewrite lookup_insert_ne by lia. exact Hnew.
Qed.

Lemma addProject_same_id_witness :
  heap_ok board ∧ store_ok board 0 ∧
  find_project board [3] (to_string (Fin false 25 (-2))) = Some 3 ∧
  ∃ h1 tr1 r,
    addProject 0 (Fin false 25 (-2)) "Docs" "Write the manual" (of_Z 2) board
      = Some (h1, tr1) ∧
    r ≠ 3 ∧
    find_project h1 ([3] ++ [r]) "0.25" = Some 3.
Proof.
  split; [exact heap_ok_board|]. split; [exact store_ok_board|].
  split; [reflexivity|].
  destruct (addProject_same_id board 0 (Fin false 25 (-2)) "Docs" "Write the manual"
              (of_Z 2) 3 [3] [column_listener 0; column_listener 1]
              heap_ok_board store_ok_board eq_refl eq_refl)
    as (h1 & tr1 & r & Hrun & _ & Hne & _ & Hfind & _).
  - repeat constructor.
  - reflexivity.
  - exists h1, tr1, r. split; [exact Hrun|]. split; [exact Hne | exact Hfind].
Defined.
